(** * Portfolio dashboard: the presentation layer (app/static/app.js) and the
    analytics contract it consumes.

    The first part embeds the functions of [app.js] that decide what is shown:
    the label table, the HTML escaper, the dividend-yield cell, the pagination
    of the transaction tab and the filter/sort pipeline of the finance tab,
    followed by the formatting helpers, the heatmap, the tables and charts of
    the dividend tab, the running balance, the sidebar and the event handlers
    of the two paged tables.  The second part models the drawdown scan of the
    analytics engine, whose code is not part of the static front end, from its
    written contract.

    JavaScript strings are represented by [string]; a non-ASCII character is
    held as its UTF-8 bytes.  Amounts that the code compares or formats are
    exact rationals; the running balance, which the code adds up, is in
    doubles. *)

From Stdlib Require Import ZArith QArith Qround Qabs Psatz List String Ascii.
From Stdlib Require Import DecimalString DecimalNat Sorting Permutation OrderedTypeEx.
From Corelib Require PrimFloat.
From stdpp Require Import base gmap list strings.

Local Open Scope string_scope.

(** ** Shared string helpers *)

(** The double quote and the apostrophe, which a string literal cannot hold
    directly. *)
Definition dquote : string := String "034"%char EmptyString.
Definition squote : string := String "039"%char EmptyString.

(** [String.prototype.includes]: [sub] occurs in [s] at some position. *)
Fixpoint includes (s sub : string) : bool :=
  String.prefix sub s ||
  match s with
  | EmptyString => false
  | String _ rest => includes rest sub
  end.

(** Does the character [c] occur in [s]? *)
Fixpoint occurs (c : ascii) (s : string) : bool :=
  match s with
  | EmptyString => false
  | String d rest => Ascii.eqb c d || occurs c rest
  end.

(** ** txLabel *)

Module Labels.

(** What a property read on the label table can produce: nothing, one of the
    label strings, or a member inherited from [Object.prototype] (a built-in
    function, or the prototype object itself for [__proto__]). *)
Inductive value : Type :=
| VUndefined
| VString (s : string)
| VBuiltin (name : string).

(** The object literal of [txLabel] (app.js, lines 149-152), own properties
    only. *)
Definition labels : gmap string string :=
  list_to_map
    [ ("PURCHASE", "Kauf"); ("SALE", "Verkauf");
      ("INBOUND_DELIVERY", "Einlieferung"); ("OUTBOUND_DELIVERY", "Auslieferung");
      ("SECURITY_TRANSFER", "Transfer"); ("CASH_TRANSFER", "Umbuchung");
      ("DEPOSIT", "Einzahlung"); ("REMOVAL", "Auszahlung");
      ("DIVIDEND", "Dividende"); ("INTEREST", "Zinsen");
      ("INTEREST_CHARGE", "Zinsbelastung"); ("TAX", "Steuer");
      ("TAX_REFUND", "Steuererstattung"); ("FEE", "Gebühr");
      ("FEE_REFUND", "Gebührenerstattung") ].

(** The fifteen transaction types of the taxonomy. *)
Definition taxonomy : list string :=
  [ "PURCHASE"; "SALE"; "INBOUND_DELIVERY"; "OUTBOUND_DELIVERY";
    "SECURITY_TRANSFER"; "CASH_TRANSFER"; "DEPOSIT"; "REMOVAL";
    "DIVIDEND"; "INTEREST"; "INTEREST_CHARGE"; "TAX"; "TAX_REFUND";
    "FEE"; "FEE_REFUND" ].

(** An object literal inherits from [Object.prototype]; these are the
    property names of the standard prototype object. *)
Definition ObjectPrototype : list string :=
  [ "constructor"; "hasOwnProperty"; "isPrototypeOf"; "propertyIsEnumerable";
    "toLocaleString"; "toString"; "valueOf"; "__proto__";
    "__defineGetter__"; "__defineSetter__"; "__lookupGetter__"; "__lookupSetter__" ].

Definition inherited (t : string) : bool :=
  existsb (String.eqb t) ObjectPrototype.

(** [obj[t]]: own property first, then the prototype chain. *)
Definition getProperty (t : string) : value :=
  match labels !! t with
  | Some l => VString l
  | None => if inherited t then VBuiltin t else VUndefined
  end.

Definition ToBoolean (v : value) : bool :=
  match v with
  | VUndefined => false
  | VString s => negb (String.eqb s "")
  | VBuiltin _ => true
  end.

(** [function txLabel(t) { return ({...})[t] || t; }] (app.js, lines
    148-153). *)
Definition txLabel (t : string) : value :=
  let v := getProperty t in
  if ToBoolean v then v else VString t.

(** The label table restricted to its own keys, as the taxonomy reads it. *)
Definition label_of (t : string) : option string := labels !! t.

End Labels.

(** ** esc *)

Module Escape.

(** The primitive values [esc] is applied to: fields of JSON data and error
    messages.  Numbers are restricted to integers, whose decimal form is
    their string conversion. *)
Inductive value : Type :=
| VUndefined
| VNull
| VBool (b : bool)
| VNumber (n : Z)
| VString (s : string).

Definition ToBoolean (v : value) : bool :=
  match v with
  | VUndefined | VNull => false
  | VBool b => b
  | VNumber n => negb (n =? 0)%Z
  | VString s => negb (String.eqb s "")
  end.

Definition ToString (v : value) : string :=
  match v with
  | VUndefined => "undefined"
  | VNull => "null"
  | VBool true => "true"
  | VBool false => "false"
  | VNumber n => NilZero.string_of_int (Z.to_int n)
  | VString s => s
  end.

(** The two UTF-8 bytes of U+00A0 (no-break space). *)
Definition nbsp_lead : ascii := "194"%char.
Definition nbsp_trail : ascii := "160"%char.

(** Reading [innerHTML] serialises the text node that the [textContent]
    setter created: the fragment serialisation algorithm escapes the data of
    a text node by replacing the ampersand, the no-break space, the
    less-than sign and the greater-than sign.  Quotes are escaped in
    attribute mode only, which a text node never is. *)
Fixpoint escapeText (s : string) : string :=
  match s with
  | EmptyString => EmptyString
  | String c rest =>
      if Ascii.eqb c "&"%char then "&amp;" ++ escapeText rest
      else if Ascii.eqb c "<"%char then "&lt;" ++ escapeText rest
      else if Ascii.eqb c ">"%char then "&gt;" ++ escapeText rest
      else if Ascii.eqb c nbsp_lead then
        match rest with
        | String d rest' =>
            if Ascii.eqb d nbsp_trail then "&nbsp;" ++ escapeText rest'
            else String c (escapeText rest)
        | EmptyString => String c EmptyString
        end
      else String c (escapeText rest)
  end.

(** The replacement as the specification words it, for comparison: each
    ampersand, less-than and greater-than sign gives way to its entity, every
    other character stays. *)
Fixpoint replace_entities (s : string) : string :=
  match s with
  | EmptyString => EmptyString
  | String c rest =>
      (if Ascii.eqb c "&"%char then "&amp;"
       else if Ascii.eqb c "<"%char then "&lt;"
       else if Ascii.eqb c ">"%char then "&gt;"
       else String c EmptyString) ++ replace_entities rest
  end.

(** [function esc(s) { if (!s) return ""; const e =
    document.createElement("span"); e.textContent = s; return e.innerHTML; }]
    (app.js, line 138). *)
Definition esc (s : value) : string :=
  if negb (ToBoolean s) then ""
  else escapeText (ToString s).

(** The cell that [renderFinTable] writes for the receiver column (app.js,
    line 577):
    [<td title="${esc(t.detail_beschrieb)}">${esc(t.empfaenger || t.titel || "-")}</td>],
    with the value of the [||] chain passed as [shown]. *)
Definition receiverCell (detail_beschrieb shown : value) : string :=
  "<td title=" ++ dquote ++ esc detail_beschrieb ++ dquote ++ ">"
    ++ esc shown ++ "</td>".

(** The [onclick] attribute of a client entry in [buildSidebar] and
    [renderOverview] (app.js, lines 101 and 192):
    [onclick="showClient('${esc(c.filename)}')"]. *)
Definition showClientAttr (filename : value) : string :=
  "onclick=" ++ dquote ++ "showClient(" ++ squote ++ esc filename ++ squote ++ ")" ++ dquote.

(** A description with double quotes in it, as a bank statement or an
    attacker may write it. *)
Definition payload : string :=
  "x" ++ dquote ++ " onmouseover=" ++ dquote ++ "alert(1)".

End Escape.

(** ** Tab "Dividenden": the dividend-yield cell *)

Module Dividenden.

(** A division that the evaluation performed, with its two operands. *)
Record division : Type := { dividend : Q; divisor : Q }.

(** [a > b] on numbers. *)
Definition gt (a b : Q) : bool := negb (Qle_bool a b).

(** [c.total_invested > 0], where the field may be [null] or missing: both
    convert to a number that is not greater than zero. *)
Definition gt0 (v : option Q) : bool :=
  match v with
  | Some q => gt q 0
  | None => false
  end.

Section Render.

(** [fmt(n, d)], the [Intl.NumberFormat] of the de-CH locale. *)
Variable fmt : Q -> nat -> string.

Definition divide (a b : Q) : Q * list division :=
  ((a / b)%Q, [ {| dividend := a; divisor := b |} ]).

(** The cell of [tabDividenden] (app.js, line 757):
    [${c.total_invested>0?fmt(d.total/c.total_invested*100,2):0}%].
    The result is the text of the cell and the divisions carried out to
    produce it. *)
Definition dividendenRendite (total : Q) (total_invested : option Q)
  : string * list division :=
  match total_invested with
  | Some invested =>
      if gt invested 0 then
        let (q, performed) := divide total invested in
        (fmt (q * 100)%Q 2 ++ "%", performed)
      else ("0" ++ "%", [])
  | None => ("0" ++ "%", [])
  end.

End Render.

End Dividenden.

(** ** Tab "Transaktionen": filter and pagination *)

Module Transaktionen.

Record Tx : Type := {
  date : string;
  type : string;
  amount : Q;
  currency : string;
  shares : option Q;
  security_name : option string;
  account : option string;
  portfolio : option string;
  note : option string
}.

(** [const TX_PER_PAGE = 30;] (app.js, line 8). *)
Definition TX_PER_PAGE : nat := 30.

(** The two globals the tab reads: [txFilter] and [txPage]. *)
Record State : Type := { txFilter : string; txPage : nat }.

(** [Array.prototype.slice(start, end)] for bounds that are non-negative
    integers: both are clamped to the length, and an end before the start
    gives the empty array. *)
Definition slice {A : Type} (l : list A) (start stop : nat) : list A :=
  take (stop - start) (drop start l).

(** [txFilter === "ALL" ? c.all_transactions
      : c.all_transactions.filter(t => t.type === txFilter)] *)
Definition filtered (st : State) (all_transactions : list Tx) : list Tx :=
  if String.eqb (txFilter st) "ALL" then all_transactions
  else List.filter (fun t => String.eqb (type t) (txFilter st)) all_transactions.

(** [filtered.slice(txPage * TX_PER_PAGE, (txPage + 1) * TX_PER_PAGE)] *)
Definition paged (st : State) (all_transactions : list Tx) : list Tx :=
  slice (filtered st all_transactions)
        (txPage st * TX_PER_PAGE) ((txPage st + 1) * TX_PER_PAGE).

(** [Math.ceil(filtered.length / TX_PER_PAGE)] *)
Definition totalPages (st : State) (all_transactions : list Tx) : Z :=
  Qceiling (inject_Z (Z.of_nat (length (filtered st all_transactions)))
            / inject_Z (Z.of_nat TX_PER_PAGE)).

(** The pagination bar: whether the "previous" button is there, the two
    numbers of "Seite n / m", and whether the "next" button is there. *)
Record Pagination : Type := {
  previous : bool;
  seite : Z;
  von : Z;
  next : bool
}.

(** What [tabTransaktionen] (app.js, lines 382-401) writes into the tab: the
    count of the heading, the rows of the table and, for more than one page,
    the pagination bar. *)
Record Rendered : Type := {
  heading : nat;
  rows : list Tx;
  pagination : option Pagination
}.

Definition tabTransaktionen (st : State) (all_transactions : list Tx) : Rendered :=
  let total := totalPages st all_transactions in
  {| heading := length (filtered st all_transactions);
     rows := paged st all_transactions;
     pagination :=
       if (1 <? total)%Z then
         Some {| previous := (0 <? txPage st)%nat;
                 seite := Z.of_nat (txPage st) + 1;
                 von := total;
                 next := (Z.of_nat (txPage st) <? total - 1)%Z |}
       else None |}.

(** [function setTxFilter(f) { txFilter = f; txPage = 0; ... }] *)
Definition setTxFilter (f : string) (st : State) : State :=
  {| txFilter := f; txPage := 0 |}.

(** [function setTxPage(p) { txPage = p; ... }] *)
Definition setTxPage (p : nat) (st : State) : State :=
  {| txFilter := txFilter st; txPage := p |}.

(** Page [p] of the current filter: what the tab shows once [setTxPage p]
    ran. *)
Definition page (st : State) (all_transactions : list Tx) (p : nat) : list Tx :=
  rows (tabTransaktionen (setTxPage p st) all_transactions).

(** A ledger for the examples: one sale and thirty-one purchases. *)
Definition sample_tx (ty : string) : Tx :=
  {| date := "2024-01-15"; type := ty; amount := 100; currency := "CHF";
     shares := None; security_name := None; account := None;
     portfolio := None; note := None |}.

Definition sample_ledger : list Tx :=
  sample_tx "SALE" :: repeat (sample_tx "PURCHASE") 31.

End Transaktionen.

(** ** Tab "Ausgaben": filtering and sorting the household transactions *)

Module Finance.

(** A row of [/api/finance/transactions].  The text fields may be [null];
    [betrag] is a number in every row. *)
Record FinTx : Type := {
  titel : option string;
  empfaenger : option string;
  detail_beschrieb : option string;
  kategorie : option string;
  art : option string;
  konto : option string;
  datum : option string;
  betrag : Q
}.

(** The columns a click on a table header can select in [setFinSort]. *)
Inductive SortField : Type :=
| F_datum | F_empfaenger | F_kategorie | F_art | F_betrag | F_konto.

Module Filter.
Record t : Type := {
  search : string;
  kategorie : string;
  art : string;
  konto : string;
  startDatum : string;
  endDatum : string
}.
End Filter.

Module Sort.
Record t : Type := { field : SortField; dir : string }.
End Sort.

(** Arrays live in a store and are handled by reference, so that sorting in
    place is visible through every alias of the array. *)
Definition loc : Type := nat.

Record Globals : Type := {
  heap : gmap nat (list FinTx);
  financeTransactions : loc;
  finFilter : Filter.t;
  finSort : Sort.t
}.

Definition with_heap (h : gmap nat (list FinTx)) (g : Globals) : Globals :=
  {| heap := h;
     financeTransactions := financeTransactions g;
     finFilter := finFilter g;
     finSort := finSort g |}.

(** Computations that read and update the globals. *)
Definition M (A : Type) : Type := Globals -> A * Globals.

#[global] Instance M_ret : MRet M := fun A (x : A) g => (x, g).
#[global] Instance M_bind : MBind M :=
  fun A B (f : A -> M B) (m : M A) g => let (a, g') := m g in f a g'.

Definition gets {A : Type} (f : Globals -> A) : M A := fun g => (f g, g).

(** A new array with the given elements. *)
Definition alloc (l : list FinTx) : M loc :=
  fun g =>
    let r := fresh (dom (heap g)) in
    (r, with_heap (<[r := l]> (heap g)) g).

Definition contents (r : loc) : M (list FinTx) :=
  fun g => (default [] (heap g !! r), g).

(** [txs.filter(p)]: a new array, the receiver is left as it is. *)
Definition Array_filter (p : FinTx -> bool) (r : loc) : M loc :=
  l ← contents r; alloc (List.filter p l).

(** [[...txs]]: a new array with the same elements. *)
Definition Array_spread (r : loc) : M loc :=
  l ← contents r; alloc l.

(** A stable sort by a comparison function: [a] stays before [b] unless
    [compareFn a b] is positive.  With a consistent comparison function every
    stable sort gives this result. *)
Fixpoint insert_sorted (compareFn : FinTx -> FinTx -> Q) (x : FinTx)
  (l : list FinTx) : list FinTx :=
  match l with
  | [] => [x]
  | y :: l' =>
      if Qle_bool (compareFn x y) 0 then x :: y :: l'
      else y :: insert_sorted compareFn x l'
  end.

Fixpoint sorted_by (compareFn : FinTx -> FinTx -> Q) (l : list FinTx) : list FinTx :=
  match l with
  | [] => []
  | x :: l' => insert_sorted compareFn x (sorted_by compareFn l')
  end.

(** [arr.sort(compareFn)]: sorts the array in place and returns it. *)
Definition Array_sort (compareFn : FinTx -> FinTx -> Q) (r : loc) : M loc :=
  fun g =>
    (r, with_heap (<[r := sorted_by compareFn (default [] (heap g !! r))]> (heap g)) g).

(** [(x || "")] for a text field. *)
Definition or_empty (x : option string) : string := default "" x.

(** [x === s] for a text field [x] and a string [s]. *)
Definition strict_eq (x : option string) (s : string) : bool :=
  match x with
  | Some v => String.eqb v s
  | None => false
  end.

(** A number: what [ToNumber] gives for a string. *)
Inductive Number : Type :=
| NaN
| Finite (n : Q)
| PosInfinity
| NegInfinity.

(** [null >= n] and [null <= n] for a number [n]: [null] converts to 0, and a
    comparison with NaN is false. *)
Definition null_ge (n : Number) : bool :=
  match n with
  | Finite q => Qle_bool q 0
  | NegInfinity => true
  | NaN | PosInfinity => false
  end.

Definition null_le (n : Number) : bool :=
  match n with
  | Finite q => Qle_bool 0 q
  | PosInfinity => true
  | NaN | NegInfinity => false
  end.

(** A non-empty string is truthy. *)
Definition truthy (s : string) : bool := negb (String.eqb s "").

(** [a[field]] for a text column. *)
Definition text_of (f : SortField) (a : FinTx) : option string :=
  match f with
  | F_datum => datum a
  | F_empfaenger => empfaenger a
  | F_kategorie => kategorie a
  | F_art => art a
  | F_konto => konto a
  | F_betrag => None
  end.

Section Locale.

(** [String.prototype.toLowerCase] and [String.prototype.localeCompare], which
    the host provides. *)
Variable toLowerCase : string -> string.
Variable localeCompare : string -> string -> Z.

(** The conversion of a string to a number ([StringToNumber]), which the host
    provides too: a text that is no numeric literal, such as a date, gives
    NaN. *)
Variable StringToNumber : string -> Number.

(** [x >= s] and [x <= s] for a text field and a string.  Two strings are
    compared unit by unit.  When the field is [null] both operands convert to
    numbers, [null] to 0. *)
Definition ge_str (x : option string) (s : string) : bool :=
  match x with
  | Some v => String.leb s v
  | None => null_ge (StringToNumber s)
  end.

Definition le_str (x : option string) (s : string) : bool :=
  match x with
  | Some v => String.leb v s
  | None => null_le (StringToNumber s)
  end.

(** The predicate of the search filter, for the lower-cased search text [s]. *)
Definition matches_search (s : string) (t : FinTx) : bool :=
  includes (toLowerCase (or_empty (titel t))) s
  || includes (toLowerCase (or_empty (empfaenger t))) s
  || includes (toLowerCase (or_empty (detail_beschrieb t))) s
  || includes (toLowerCase (or_empty (kategorie t))) s.

(** The comparison function handed to [sort].  Both operands are numbers
    exactly when the column is [betrag]; every other column compares
    [String(va || "")] with [String(vb || "")]. *)
Definition compareFn (f : SortField) (d : Q) (a b : FinTx) : Q :=
  match f with
  | F_betrag => (betrag a - betrag b) * d
  | _ => inject_Z (localeCompare (or_empty (text_of f a)) (or_empty (text_of f b))) * d
  end.

(** [if (cond) txs = txs.filter(p);] *)
Definition filter_if (cond : bool) (p : FinTx -> bool) (txs : loc) : M loc :=
  if cond then Array_filter p txs else mret txs.

(** [function getFilteredFinTx()] (app.js, lines 534-554). *)
Definition getFilteredFinTx : M loc :=
  txs ← gets financeTransactions;
  flt ← gets finFilter;
  txs ← filter_if (truthy (Filter.search flt))
        (matches_search (toLowerCase (Filter.search flt))) txs;
  txs ← filter_if (truthy (Filter.kategorie flt))
        (fun t => strict_eq (kategorie t) (Filter.kategorie flt)) txs;
  txs ← filter_if (truthy (Filter.art flt))
        (fun t => strict_eq (art t) (Filter.art flt)) txs;
  txs ← filter_if (truthy (Filter.konto flt))
        (fun t => strict_eq (konto t) (Filter.konto flt)) txs;
  txs ← filter_if (truthy (Filter.startDatum flt))
        (fun t => ge_str (datum t) (Filter.startDatum flt)) txs;
  txs ← filter_if (truthy (Filter.endDatum flt))
        (fun t => le_str (datum t) (Filter.endDatum flt)) txs;
  srt ← gets finSort;
  let d : Q := if String.eqb (Sort.dir srt) "desc" then (-1)%Q else 1%Q in
  copy ← Array_spread txs;
  Array_sort (compareFn (Sort.field srt) d) copy.

(** The filters as the tab describes them, for comparison with the code: a
    filter is active when its text is not empty, and a row passes when it
    satisfies every active filter. *)
Definition passes (flt : Filter.t) (t : FinTx) : bool :=
  (negb (truthy (Filter.search flt))
     || matches_search (toLowerCase (Filter.search flt)) t)
  && (negb (truthy (Filter.kategorie flt))
     || strict_eq (kategorie t) (Filter.kategorie flt))
  && (negb (truthy (Filter.art flt)) || strict_eq (art t) (Filter.art flt))
  && (negb (truthy (Filter.konto flt)) || strict_eq (konto t) (Filter.konto flt))
  && (negb (truthy (Filter.startDatum flt))
     || ge_str (datum t) (Filter.startDatum flt))
  && (negb (truthy (Filter.endDatum flt))
     || le_str (datum t) (Filter.endDatum flt)).

(** The order the table is asked for: [a] may stand before [b]. *)
Definition in_order (srt : Sort.t) (a b : FinTx) : Prop :=
  let d : Q := if String.eqb (Sort.dir srt) "desc" then (-1)%Q else 1%Q in
  (compareFn (Sort.field srt) d a b <= 0)%Q.

(** The filters in words, for comparison with the code.  A filter is set when
    its text is not empty.  The search text is looked for, without regard to
    case, in the four fields [titel], [empfaenger], [detail_beschrieb] and
    [kategorie], a field that is [null] counting as the empty text; the
    filters of category, kind and account ask for that very text; a date
    bound asks for a [datum] that is there and lies on the right side of the
    bound in the order of texts. *)
Definition found (needle : string) (field : option string) : bool :=
  includes (toLowerCase (default "" field)) (toLowerCase needle).

Definition reads (field : option string) (text : string) : bool :=
  match field with
  | Some v => String.eqb v text
  | None => false
  end.

Definition from (bound : string) (field : option string) : bool :=
  match field with
  | Some d => String.leb bound d
  | None => false
  end.

Definition upto (bound : string) (field : option string) : bool :=
  match field with
  | Some d => String.leb d bound
  | None => false
  end.

Definition unset (text : string) : bool := String.eqb text "".

Definition satisfies (flt : Filter.t) (t : FinTx) : bool :=
  (unset (Filter.search flt)
     || found (Filter.search flt) (titel t)
     || found (Filter.search flt) (empfaenger t)
     || found (Filter.search flt) (detail_beschrieb t)
     || found (Filter.search flt) (kategorie t))
  && (unset (Filter.kategorie flt) || reads (kategorie t) (Filter.kategorie flt))
  && (unset (Filter.art flt) || reads (art t) (Filter.art flt))
  && (unset (Filter.konto flt) || reads (konto t) (Filter.konto flt))
  && (unset (Filter.startDatum flt) || from (Filter.startDatum flt) (datum t))
  && (unset (Filter.endDatum flt) || upto (Filter.endDatum flt) (datum t)).

(** The order in words, for comparison with the code: the text of the sort
    column, a [null] counting as the empty text, and the table sorted by it
    in the direction asked for, by amount for the column [betrag] and by the
    collation of the locale for every other column; a direction other than
    "desc" is ascending. *)
Definition column (f : SortField) (a : FinTx) : string :=
  match f with
  | F_datum => default "" (datum a)
  | F_empfaenger => default "" (empfaenger a)
  | F_kategorie => default "" (kategorie a)
  | F_art => default "" (art a)
  | F_konto => default "" (konto a)
  | F_betrag => ""
  end.

Definition sorted_as_asked (srt : Sort.t) (a b : FinTx) : Prop :=
  match Sort.field srt with
  | F_betrag =>
      if String.eqb (Sort.dir srt) "desc" then (betrag b <= betrag a)%Q
      else (betrag a <= betrag b)%Q
  | f =>
      if String.eqb (Sort.dir srt) "desc"
      then (0 <= localeCompare (column f a) (column f b))%Z
      else (localeCompare (column f a) (column f b) <= 0)%Z
  end.

(** A bound of the date filter is not set, or it is a text that does not read
    as a number, as the value of a date input is (empty, or yyyy-mm-dd). *)
Definition date_shaped (bound : string) : Prop :=
  bound = "" \/ StringToNumber bound = NaN.

End Locale.

(** [g'] differs from [g] by new arrays only: the three globals and every
    array of [g] are as they were. *)
Definition extends (g g' : Globals) : Prop :=
  financeTransactions g' = financeTransactions g
  /\ finFilter g' = finFilter g
  /\ finSort g' = finSort g
  /\ forall r : nat, r ∈ dom (heap g) -> heap g' !! r = heap g !! r.

(** [a] may stand before [b] under the comparison function. *)
Definition not_after (compareFn : FinTx -> FinTx -> Q) (a b : FinTx) : Prop :=
  (compareFn a b <= 0)%Q.

(** A host for the examples: lower-casing of the ASCII letters, and the
    comparison of strings unit by unit. *)
Definition lower_ascii (c : ascii) : ascii :=
  let n := nat_of_ascii c in
  if (65 <=? n)%nat && (n <=? 90)%nat then ascii_of_nat (n + 32) else c.

Fixpoint lower (s : string) : string :=
  match s with
  | EmptyString => EmptyString
  | String c rest => String (lower_ascii c) (lower rest)
  end.

(** For the examples: a string of decimal digits read as its number (the empty
    string as 0), every other string as NaN, which is what the host gives for
    a date of the form yyyy-mm-dd. *)
Definition plainNumber (s : string) : Number :=
  match NilZero.uint_of_string s with
  | Some u => Finite (inject_Z (Z.of_N (N.of_uint u)))
  | None => NaN
  end.

Definition ordinalCompare (a b : string) : Z :=
  match String_as_OT.cmp a b with
  | Lt => (-1)%Z
  | Eq => 0%Z
  | Gt => 1%Z
  end.

(** Three rows, and a state in which the table asks for the debits by
    amount. *)
Definition row (ti em ka ar ko da : string) (be : Q) : FinTx :=
  {| titel := Some ti; empfaenger := Some em; detail_beschrieb := None;
     kategorie := Some ka; art := Some ar; konto := Some ko;
     datum := Some da; betrag := be |}.

Definition miete : FinTx :=
  row "Miete" "Verwaltung AG" "Wohnen" "Belastung" "Privat" "2024-01-05" 1500.
Definition lohn : FinTx :=
  row "Lohn" "Arbeitgeber" "Einkommen" "Gutschrift" "Privat" "2024-01-25" 6000.
Definition einkauf : FinTx :=
  row "Einkauf" "Migros" "Lebensmittel" "Belastung" "Privat" "2024-02-03" (165 # 2).

Definition sample_rows : list FinTx := [miete; lohn; einkauf].

(** A row that has no date yet, and a state whose lower date bound is the
    text "0". *)
Definition offen : FinTx :=
  {| titel := Some "Offen"; empfaenger := None; detail_beschrieb := None;
     kategorie := None; art := Some "Belastung"; konto := None;
     datum := None; betrag := 20 |}.

Definition since_zero : Filter.t :=
  {| Filter.search := ""; Filter.kategorie := ""; Filter.art := "";
     Filter.konto := ""; Filter.startDatum := "0"; Filter.endDatum := "" |}.

Definition undated_globals : Globals :=
  {| heap := {[ 0%nat := [miete; offen] ]};
     financeTransactions := 0%nat;
     finFilter := since_zero;
     finSort := {| Sort.field := F_datum; Sort.dir := "desc" |} |}.


Definition sample_globals : Globals :=
  {| heap := {[ 0%nat := sample_rows ]};
     financeTransactions := 0%nat;
     finFilter := {| Filter.search := ""; Filter.kategorie := "";
                     Filter.art := "Belastung"; Filter.konto := "";
                     Filter.startDatum := ""; Filter.endDatum := "" |};
     finSort := {| Sort.field := F_betrag; Sort.dir := "asc" |} |}.

End Finance.


(** ** Arrays: stable sorting and the elements of a [Set] *)

Module Arrays.

Section Sort.

Context {A : Type}.

(** [after a b]: the comparison function of the sort gives a positive number
    for [(a, b)], so that [a] has to go after [b]. *)
Variable after : A -> A -> bool.

(** [Array.prototype.sort]: a stable sort; an element stays before the ones
    that follow it unless the comparison sends it after them.  With a
    consistent comparison function every stable sort gives this result. *)
Fixpoint insert (x : A) (l : list A) : list A :=
  match l with
  | [] => [x]
  | y :: l' => if after x y then y :: insert x l' else x :: y :: l'
  end.

Fixpoint sort (l : list A) : list A :=
  match l with
  | [] => []
  | x :: l' => insert x (sort l')
  end.

(** [a] may stand before [b]. *)
Definition in_place (a b : A) : Prop := after a b = false.

End Sort.

Section Unique.

Context {A : Type}.
Variable same : A -> A -> bool.

(** [[...new Set(l)]]: the elements of [l] in the order of their first
    occurrence, each once. *)
Fixpoint unique_from (seen l : list A) : list A :=
  match l with
  | [] => []
  | x :: l' =>
      if existsb (same x) seen then unique_from seen l'
      else x :: unique_from (x :: seen) l'
  end.

Definition unique (l : list A) : list A := unique_from [] l.

End Unique.

End Arrays.

(** ** Formatting helpers (app.js, lines 131-166) *)

Module Formatting.

Section Fmt.

(** [fmt(n, d)], the [Intl.NumberFormat] of the de-CH locale. *)
Variable fmt : Q -> nat -> string.

(** [function fmtPct(n) { return `${n >= 0 ? "+" : ""}${fmt(n, 1)}%`; }] *)
Definition fmtPct (n : Q) : string :=
  (if Qle_bool 0 n then "+" else "") ++ fmt n 1 ++ "%".

End Fmt.

(** [function heatmapColor(v)] (app.js, lines 159-166). *)
Definition heatmapColor (v : Q) : string :=
  if Dividenden.gt v 5 then "rgba(34,197,94,0.7)"
  else if Dividenden.gt v 2 then "rgba(34,197,94,0.4)"
  else if Dividenden.gt v 0 then "rgba(34,197,94,0.2)"
  else if Dividenden.gt v (-2) then "rgba(239,68,68,0.2)"
  else if Dividenden.gt v (-5) then "rgba(239,68,68,0.4)"
  else "rgba(239,68,68,0.7)".

(** In [truncate] a text is the sequence of its UTF-16 code units, which is
    what [length] and [substring] count. *)
Definition ellipsis : list N := [46%N; 46%N; 46%N].

(** [function truncate(s, n) { return s.length > n ? s.substring(0, n) + "..."
    : s; }] (app.js, line 139), for a limit [n] that is a non-negative
    integer, as at its call sites (18, 20, 22). *)
Definition truncate (s : list N) (n : nat) : list N :=
  if (n <? length s)%nat then (take n s ++ ellipsis)%list else s.

End Formatting.

(** ** Reading back what [esc] wrote *)

Module Unescape.

(** The character references that [esc] writes, as the HTML parser reads
    them in the content of an element: each of the four entities stands for
    its character, every other character for itself. *)
Fixpoint decodeText (s : string) : string :=
  match s with
  | EmptyString => EmptyString
  | String "&" (String "a" (String "m" (String "p" (String ";" rest)))) =>
      String "&" (decodeText rest)
  | String "&" (String "l" (String "t" (String ";" rest))) =>
      String "<" (decodeText rest)
  | String "&" (String "g" (String "t" (String ";" rest))) =>
      String ">" (decodeText rest)
  | String "&" (String "n" (String "b" (String "s" (String "p" (String ";" rest))))) =>
      String Escape.nbsp_lead (String Escape.nbsp_trail (decodeText rest))
  | String c rest => String c (decodeText rest)
  end.

End Unescape.

(** ** The heatmap of the monthly returns (app.js, lines 319-343) *)

Module Heatmap.

(** An entry of [monthly_returns]; year and month are non-negative
    integers. *)
Record MonthlyReturn : Type := { year : nat; month : nat; return_pct : Q }.

(** The text a non-negative integer takes in a template literal. *)
Definition decimal (n : nat) : string :=
  NilZero.string_of_uint (Nat.to_uint n).

(** The key [`${year}-${month}`] of the lookup table. *)
Definition key (y m : nat) : string := decimal y ++ "-" ++ decimal m.

(** [data.forEach(d => { lookup[`${d.year}-${d.month}`] = d.return_pct; })],
    starting from the empty object.  No key of this form names a member of
    [Object.prototype], so a read finds what was stored or nothing. *)
Definition lookup (data : list MonthlyReturn) : gmap string Q :=
  fold_left (fun lk d => <[key (year d) (month d) := return_pct d]> lk) data ∅.

(** The default comparison of [sort()]: the elements are compared as strings,
    unit by unit; [a] goes after [b] when the string of [b] is smaller. *)
Definition after_default (a b : nat) : bool :=
  match String.compare (decimal b) (decimal a) with
  | Lt => true
  | _ => false
  end.

(** [[...new Set(data.map(d => d.year))].sort()] *)
Definition years (data : list MonthlyReturn) : list nat :=
  Arrays.sort after_default (Arrays.unique Nat.eqb (map year data)).

(** The twelve cells of the row of year [y]: [lookup[`${y}-${m}`]] for [m]
    from 1 to 12, where nothing stands for [undefined]. *)
Definition cells (data : list MonthlyReturn) (y : nat) : list (option Q) :=
  map (fun m => lookup data !! key y m) (seq 1 12).

(** The rows of the heatmap, one per year. *)
Definition rows (data : list MonthlyReturn) : list (nat * list (option Q)) :=
  map (fun y => (y, cells data y)) (years data).

Definition months : list string :=
  [ "Jan"; "Feb"; "Mär"; "Apr"; "Mai"; "Jun";
    "Jul"; "Aug"; "Sep"; "Okt"; "Nov"; "Dez" ].

Section Render.

Variable fmt : Q -> nat -> string.

(** An attribute value between its double quotes. *)
Definition quoted (s : string) : string := dquote ++ s ++ dquote.

(** The cell of month [m] (counted from 1) in the row of year [y]. *)
Definition cell_html (y m : nat) (v : option Q) : string :=
  match v with
  | Some v =>
      "<div class=" ++ quoted "heatmap-cell"
      ++ " style=" ++ quoted ("background:" ++ Formatting.heatmapColor v)
      ++ " title=" ++ quoted (nth (m - 1) months "undefined" ++ " " ++ decimal y
                              ++ ": " ++ Formatting.fmtPct fmt v)
      ++ ">" ++ (if Dividenden.gt v 0 then "+" else "") ++ fmt v 1 ++ "</div>"
  | None =>
      "<div class=" ++ quoted "heatmap-cell"
      ++ " style=" ++ quoted "background:var(--card)" ++ "></div>"
  end.

Definition row_html (r : nat * list (option Q)) : string :=
  "<div class=" ++ quoted "heatmap-header"
  ++ " style=" ++ quoted "text-align:right;padding-right:8px" ++ ">"
  ++ decimal (fst r) ++ "</div>"
  ++ String.concat "" (map (fun mv => cell_html (fst r) (fst mv) (snd mv))
                           (combine (seq 1 12) (snd r))).

(** [function renderHeatmap(data)]: the markup written into the element
    [heatmap]. *)
Definition renderHeatmap (data : list MonthlyReturn) : string :=
  "<div class=" ++ quoted "heatmap"
  ++ " style=" ++ quoted "grid-template-columns: 60px repeat(12, 1fr)" ++ ">"
  ++ "<div class=" ++ quoted "heatmap-header" ++ "></div>"
  ++ String.concat "" (map (fun m => "<div class=" ++ quoted "heatmap-header"
                                     ++ ">" ++ m ++ "</div>") months)
  ++ String.concat "" (map row_html (rows data))
  ++ "</div>".

End Render.

(** The return of the last entry for year [y] and month [m], if there is
    one. *)
Definition last_entry (data : list MonthlyReturn) (y m : nat) : option Q :=
  return_pct <$>
    head (List.filter (fun d => Nat.eqb (year d) y && Nat.eqb (month d) m)
                      (rev data)).

(** Data for the examples: two entries for March 2024, and the years 999 and
    1000. *)
Definition sample : list MonthlyReturn :=
  [ {| year := 2024; month := 3; return_pct := 1 |};
    {| year := 2023; month := 12; return_pct := -2 |};
    {| year := 2024; month := 3; return_pct := 3 |} ].

Definition early : list MonthlyReturn :=
  [ {| year := 999; month := 1; return_pct := 1 |};
    {| year := 1000; month := 1; return_pct := 1 |} ].

End Heatmap.

(** ** Tab "Dividenden": tables and charts (app.js, lines 750-781) *)

Module DividendenTab.

(** The entries of [d.by_year] and of [d.by_security] as [Object.entries]
    hands them over.  The key of a year is the text of a non-negative integer,
    which the comparison [b[0] - a[0]] converts back to that number. *)
Definition YearEntry : Type := (nat * Q)%type.
Definition SecurityEntry : Type := (string * Q)%type.

(** [(a, b) => b[0] - a[0]] is positive when the year of [a] is smaller. *)
Definition after_year (a b : YearEntry) : bool := (fst a <? fst b)%nat.

(** [(a, b) => b[1] - a[1]] is positive when the amount of [a] is smaller. *)
Definition after_amount (a b : SecurityEntry) : bool :=
  Dividenden.gt (snd b) (snd a).

(** What the tab shows: the rows of the two tables, the count of sources in
    the third card, and the bars of the two charts; a chart is only made when
    there is an entry. *)
Record Rendered : Type := {
  nach_jahr : list YearEntry;
  nach_wertpapier : list SecurityEntry;
  quellen : nat;
  chDivYear : option (list YearEntry);
  chDivSec : option (list SecurityEntry)
}.

(** [function tabDividenden(c)].  The tables are written from [years] before
    [years.reverse()] turns that array round for the chart. *)
Definition tabDividenden (by_year : list YearEntry)
  (by_security : list SecurityEntry) : Rendered :=
  let years := Arrays.sort after_year by_year in
  let securities := Arrays.sort after_amount by_security in
  {| nach_jahr := years;
     nach_wertpapier := securities;
     quellen := length securities;
     chDivYear := if (0 <? length years)%nat then Some (rev years) else None;
     chDivSec := if (0 <? length securities)%nat
                 then Some (take 10 securities) else None |}.

End DividendenTab.

(** ** The charts of the tab "Ausgaben" (app.js, lines 466-521) *)

Module FinCharts.

Import PrimFloat.

(** An entry of [financeData.monthly]; its numbers are doubles. *)
Record Monat : Type := {
  monat : string;
  einnahmen : float;
  ausgaben : float;
  saldo : float
}.

(** [m.reduce((acc, d) => { acc += d.saldo; cumulative.push(acc); return acc;
    }, 0)]: one step takes the accumulator and the array [cumulative]; the
    addition is that of doubles. *)
Definition step (st : float * list float) (d : Monat) : float * list float :=
  let acc := PrimFloat.add (fst st) (saldo d) in
  (acc, (snd st ++ [acc])%list).

(** The data of the line "Kumulierter Saldo". *)
Definition cumulative (m : list Monat) : list float :=
  snd (fold_left step m (0%float, [])).

(** The numbers of a list added up from left to right, starting from 0, each
    addition rounded as the addition of doubles is. *)
Definition running (l : list float) : float :=
  fold_left PrimFloat.add l 0%float.

(** Months for the examples, with the balances 0.1 and 0.2, and with the
    balances 1e16 and 1. *)
#[local] Set Warnings "-inexact-float".

Definition month (name : string) (balance : float) : Monat :=
  {| monat := name; einnahmen := balance; ausgaben := 0%float;
     saldo := balance |}.

Definition tenths : list Monat :=
  [ month "2024-01" 0.1%float; month "2024-02" 0.2%float ].

Definition tenths_running : list float :=
  [ 0.1%float; 0.30000000000000004%float ].

Definition large : list Monat :=
  [ month "2024-01" 1e16%float; month "2024-02" 1%float ].

Definition large_running : list float := [ 1e16%float; 1e16%float ].

End FinCharts.

(** ** The sidebar (app.js, lines 27-39) *)

Module Sidebar.

(** The class "collapsed" of the sidebar, the class "sidebar-collapsed" of
    the body, and the item "sidebarCollapsed" of the local storage. *)
Record Page : Type := {
  collapsed : bool;
  body_collapsed : bool;
  stored : option string
}.

(** [function toggleSidebar()]: both classes are toggled, and the state of
    the sidebar is stored as the text of a boolean. *)
Definition toggleSidebar (p : Page) : Page :=
  let c := negb (collapsed p) in
  {| collapsed := c;
     body_collapsed := negb (body_collapsed p);
     stored := Some (if c then "true" else "false") |}.

(** [function restoreSidebar()] *)
Definition restoreSidebar (p : Page) : Page :=
  match stored p with
  | Some s =>
      if String.eqb s "true"
      then {| collapsed := true; body_collapsed := true; stored := stored p |}
      else p
  | None => p
  end.

(** Loading the page anew: the classes are those of the markup, the storage
    is kept, and [init] calls [restoreSidebar]. *)
Definition reload (markup_collapsed markup_body : bool) (p : Page) : Page :=
  restoreSidebar {| collapsed := markup_collapsed;
                    body_collapsed := markup_body;
                    stored := stored p |}.

End Sidebar.

(** ** The table of the tab "Ausgaben": sorting by a click on a header *)

Module FinanceTable.

Import Finance.

Definition same_field (a b : SortField) : bool :=
  match a, b with
  | F_datum, F_datum | F_empfaenger, F_empfaenger | F_kategorie, F_kategorie
  | F_art, F_art | F_betrag, F_betrag | F_konto, F_konto => true
  | _, _ => false
  end.

(** [function setFinSort(field)] (app.js, lines 591-599). *)
Definition setFinSort (f : SortField) (srt : Sort.t) : Sort.t :=
  if same_field (Sort.field srt) f then
    {| Sort.field := Sort.field srt;
       Sort.dir := if String.eqb (Sort.dir srt) "desc" then "asc" else "desc" |}
  else
    {| Sort.field := f;
       Sort.dir := if same_field f F_datum then "desc" else "asc" |}.

(** The state [tabAusgaben] sets before it renders the tab. *)
Definition initial : Sort.t := {| Sort.field := F_datum; Sort.dir := "desc" |}.

End FinanceTable.

(** ** Tab "Transaktionen": the buttons *)

Module TransaktionenButtons.

Import Transaktionen.

(** The filter buttons of the tab (app.js, line 383). *)
Definition types : list string :=
  [ "ALL"; "PURCHASE"; "SALE"; "DIVIDEND"; "DEPOSIT"; "REMOVAL"; "FEE"; "INTEREST" ].

(** What a user can click in the tab. *)
Inductive Click : Type :=
| ClickFilter (t : string)
| ClickPrevious
| ClickNext.

(** The handler that a click runs.  A button acts only when the markup that
    [tabTransaktionen] wrote for the state holds it: a filter button for each
    of [types], "previous" with [setTxPage(txPage - 1)] and "next" with
    [setTxPage(txPage + 1)] under the conditions of the pagination bar. *)
Definition click (all_transactions : list Tx) (st : State) (c : Click) : State :=
  match c with
  | ClickFilter t =>
      if existsb (String.eqb t) types then setTxFilter t st else st
  | ClickPrevious =>
      match pagination (tabTransaktionen st all_transactions) with
      | Some bar => if previous bar then setTxPage (txPage st - 1) st else st
      | None => st
      end
  | ClickNext =>
      match pagination (tabTransaktionen st all_transactions) with
      | Some bar => if next bar then setTxPage (txPage st + 1) st else st
      | None => st
      end
  end.

(** The state in which [showClient] leaves the two globals. *)
Definition opened : State := {| txFilter := "ALL"; txPage := 0 |}.

(** The page is the first one or lies below the page count. *)
Definition in_range (all_transactions : list Tx) (st : State) : Prop :=
  txPage st = 0%nat \/ (Z.of_nat (txPage st) < totalPages st all_transactions)%Z.

End TransaktionenButtons.

(** ** The table of the tab "Ausgaben": a click on a header, on the globals *)

Module FinanceClicks.

Import Finance FinanceTable.

(** [setFinSort(field)] assigns to the global [finSort] and to nothing
    else. *)
Definition sortBy (f : SortField) (g : Globals) : Globals :=
  {| heap := heap g;
     financeTransactions := financeTransactions g;
     finFilter := finFilter g;
     finSort := setFinSort f (finSort g) |}.

(** The direction factor of [getFilteredFinTx]. *)
Definition direction (srt : Sort.t) : Q :=
  if String.eqb (Sort.dir srt) "desc" then (-1)%Q else 1%Q.

(** Globals with one array of rows, the given filters and the initial sort
    state. *)
Definition globals_of (l : list FinTx) (flt : Filter.t) : Globals :=
  {| heap := {[ 0%nat := l ]};
     financeTransactions := 0%nat;
     finFilter := flt;
     finSort := initial |}.

(** A row booked at a time of day. *)
Definition abends : FinTx :=
  row "Kino" "Kino AG" "Freizeit" "Belastung" "Privat" "2024-01-31T20:15:00" 18.

Definition until_january : Filter.t :=
  {| Filter.search := ""; Filter.kategorie := ""; Filter.art := "";
     Filter.konto := ""; Filter.startDatum := ""; Filter.endDatum := "2024-01-31" |}.

End FinanceClicks.

(** ** The table of the tab "Ausgaben": rendering and its event handlers *)

Module FinanceView.

Import Finance FinanceTable FinanceClicks.

(** [const FIN_PER_PAGE = 30;] (app.js, line 17). *)
Definition FIN_PER_PAGE : nat := 30.

(** What [renderFinTable] writes into [finTableContent]: the count above the
    table, the rows of the page, whether the notice "Keine Transaktionen
    gefunden" stands in their place, and the pagination bar. *)
Record Rendered : Type := {
  count : nat;
  paged : list FinTx;
  notice : bool;
  bar : option Transaktionen.Pagination
}.

(** [Math.max(1, Math.ceil(filtered.length / FIN_PER_PAGE))] *)
Definition totalPages (n : nat) : Z :=
  Z.max 1 (Qceiling (inject_Z (Z.of_nat n) / inject_Z (Z.of_nat FIN_PER_PAGE))).

(** The markup of [renderFinTable] for the array [filtered] and the page
    [finPage]. *)
Definition table_of (filtered : list FinTx) (finPage : nat) : Rendered :=
  let total := totalPages (length filtered) in
  let rows := Transaktionen.slice filtered (finPage * FIN_PER_PAGE)
                                  ((finPage + 1) * FIN_PER_PAGE) in
  {| count := length filtered;
     paged := rows;
     notice := (length rows =? 0)%nat;
     bar :=
       if (1 <? total)%Z then
         Some {| Transaktionen.previous := (0 <? finPage)%nat;
                 Transaktionen.seite := Z.of_nat finPage + 1;
                 Transaktionen.von := total;
                 Transaktionen.next := (Z.of_nat finPage <? total - 1)%Z |}
       else None |}.

(** The globals of the tab with the page, and what the table shows. *)
Record View : Type := {
  globals : Globals;
  finPage : nat;
  table : Rendered
}.

Definition with_filter (flt : Filter.t) (g : Globals) : Globals :=
  {| heap := heap g;
     financeTransactions := financeTransactions g;
     finFilter := flt;
     finSort := finSort g |}.

Definition no_filter : Filter.t :=
  {| Filter.search := ""; Filter.kategorie := ""; Filter.art := "";
     Filter.konto := ""; Filter.startDatum := ""; Filter.endDatum := "" |}.

(** What a user can do in the table: change an input of the filter bar,
    after which [updateFinFilter] reads the six inputs; click the header of a
    column; click one of the two buttons of the pagination bar. *)
Inductive Event : Type :=
| ChangeFilter (inputs : Filter.t)
| ClickHeader (f : SortField)
| ClickPrevious
| ClickNext.

Section Locale.

Variable toLowerCase : string -> string.
Variable localeCompare : string -> string -> Z.
Variable StringToNumber : string -> Number.

(** [function renderFinTable()] (app.js, lines 556-589), for the page
    [finPage]. *)
Definition renderFinTable (finPage : nat) : M Rendered :=
  filtered ← getFilteredFinTx toLowerCase localeCompare StringToNumber;
  rows ← contents filtered;
  mret (table_of rows finPage).

(** The state after [renderFinTable] ran with the given globals and page. *)
Definition show (g : Globals) (p : nat) : View :=
  let (t, g') := renderFinTable p g in
  {| globals := g'; finPage := p; table := t |}.

(** [tabAusgaben] (app.js, lines 420-423), once the data are loaded: the
    filters and the sort state are reset, the page is the first one. *)
Definition tabAusgaben (g : Globals) : View :=
  show {| heap := heap g;
          financeTransactions := financeTransactions g;
          finFilter := no_filter;
          finSort := initial |} 0.

(** The handlers: [updateFinFilter] (lines 523-532), [setFinSort] (lines
    591-599) and [setFinPage] (line 601).  A button of the pagination bar
    acts only when the table holds it. *)
Definition handle (v : View) (e : Event) : View :=
  match e with
  | ChangeFilter inputs => show (with_filter inputs (globals v)) 0
  | ClickHeader f => show (sortBy f (globals v)) (finPage v)
  | ClickPrevious =>
      match bar (table v) with
      | Some b =>
          if Transaktionen.previous b then show (globals v) (finPage v - 1) else v
      | None => v
      end
  | ClickNext =>
      match bar (table v) with
      | Some b =>
          if Transaktionen.next b then show (globals v) (finPage v + 1) else v
      | None => v
      end
  end.

(** The state of the tab is in order for the rows [l] of the data. *)
Definition in_order_for (l : list FinTx) (v : View) : Prop :=
  heap (globals v) !! financeTransactions (globals v) = Some l
  /\ exists res,
       Permutation res (List.filter (passes toLowerCase StringToNumber (finFilter (globals v))) l)
       /\ table v = table_of res (finPage v)
       /\ (finPage v = 0%nat \/ (Z.of_nat (finPage v) < totalPages (length res))%Z).

End Locale.

(** The filters of the examples. *)
Definition debits : Filter.t :=
  {| Filter.search := ""; Filter.kategorie := ""; Filter.art := "Belastung";
     Filter.konto := ""; Filter.startDatum := ""; Filter.endDatum := "" |}.

End FinanceView.

(** ** The analytics engine: maximum drawdown

    The front end only renders [performance.max_drawdown] and its two dates;
    the code that computes them runs on the server.  This module models that
    computation from its written contract.  Values are exact rationals in the
    base currency, dates are day numbers. *)

Module Engine.

Local Open Scope Q_scope.

Definition Qltb (a b : Q) : bool := negb (Qle_bool b a).

(** Modelled from the spec: a point of the value history, date and total
    portfolio value; the code that builds the history is missing. *)
Record ValueHistoryPoint : Type := { vh_date : Z; vh_value : Q }.

(** Modelled from the spec: the decline from [peak] to [v] as a percentage of
    the peak; a peak that is not positive has no decline. *)
Definition decline (peak v : Q) : Q :=
  if Qltb 0 peak then (peak - v) / peak * 100 else 0.

(** Modelled from the spec: the state of the scan of the value history, the
    code of which is missing: the running peak with its date, the largest
    decline found so far and the peak and trough dates that produced it. *)
Record Scan : Type := {
  peak : Q;
  peak_date : Z;
  max_drawdown : Q;
  period : option (Z * Z)
}.

(** Modelled from the spec: one step of the scan of the value history.  A
    value above the running peak becomes the new peak; a decline strictly
    larger than every earlier one is recorded with its peak and trough
    dates. *)
Definition scan_step (s : Scan) (p : ValueHistoryPoint) : Scan :=
  let pk := if Qltb (peak s) (vh_value p) then vh_value p else peak s in
  let pd := if Qltb (peak s) (vh_value p) then vh_date p else peak_date s in
  let dd := decline pk (vh_value p) in
  if Qltb (max_drawdown s) dd
  then {| peak := pk; peak_date := pd; max_drawdown := dd;
          period := Some (pd, vh_date p) |}
  else {| peak := pk; peak_date := pd; max_drawdown := max_drawdown s;
          period := period s |}.

(** Modelled from the spec: the state the scan starts from, at the first
    point of the history.  That point is the peak; nothing has declined yet,
    so no peak and trough are tracked. *)
Definition scan_start (p : ValueHistoryPoint) : Scan :=
  {| peak := vh_value p; peak_date := vh_date p;
     max_drawdown := 0; period := None |}.

(** Modelled from the spec: max drawdown of a value history with its start
    (peak) and end (trough) dates. *)
Definition drawdown (h : list ValueHistoryPoint) : Scan :=
  match h with
  | [] => {| peak := 0; peak_date := 0%Z; max_drawdown := 0; period := None |}
  | p :: _ => fold_left scan_step h (scan_start p)
  end.

(** Modelled from the spec: the start (peak) and end (trough) dates reported
    with the maximum drawdown. *)
Definition max_drawdown_start (h : list ValueHistoryPoint) : option Z :=
  fst <$> period (drawdown h).

Definition max_drawdown_end (h : list ValueHistoryPoint) : option Z :=
  snd <$> period (drawdown h).

(** Modelled from the spec: the dates of a value history are strictly
    increasing. *)
Fixpoint increasing (h : list ValueHistoryPoint) : bool :=
  match h with
  | [] => true
  | p :: rest =>
      match rest with
      | [] => true
      | q :: _ => (vh_date p <? vh_date q)%Z && increasing rest
      end
  end.

(** Modelled from the spec: [p] is the peak for the point number [j] of the
    history, the highest value up to and including that point. *)
Definition peak_for (h : list ValueHistoryPoint) (j : nat)
  (p : ValueHistoryPoint) : Prop :=
  forall k r, (k <= j)%nat -> h !! k = Some r -> vh_value r <= vh_value p.

(** What the scan has established once it went through the points [seen]:
    the running peak bounds them and is one of them; no decline from the peak
    for a point to that point exceeds the recorded maximum; and either nothing
    has declined and no dates are recorded, or the recorded dates are those of
    a peak and of a later trough that decline by exactly the recorded maximum,
    which is positive. *)
Definition scanned (seen : list ValueHistoryPoint) (s : Scan) : Prop :=
  (forall i p, seen !! i = Some p -> vh_value p <= peak s)
  /\ (exists k pp, seen !! k = Some pp /\ vh_value pp = peak s
                   /\ vh_date pp = peak_date s)
  /\ 0 <= max_drawdown s
  /\ (forall i j p q, seen !! i = Some p -> seen !! j = Some q -> (i <= j)%nat ->
         peak_for seen j p ->
         decline (vh_value p) (vh_value q) <= max_drawdown s)
  /\ ((period s = None /\ max_drawdown s == 0)
      \/ (exists i j p q,
            period s = Some (vh_date p, vh_date q)
            /\ (i < j)%nat /\ seen !! i = Some p /\ seen !! j = Some q
            /\ peak_for seen j p
            /\ decline (vh_value p) (vh_value q) == max_drawdown s
            /\ 0 < max_drawdown s)).

(** A value history for the examples: a first drop of a quarter, a second one
    of a half, and a last one of an eighth. *)
Definition sample_history : list ValueHistoryPoint :=
  [ {| vh_date := 1; vh_value := 100 |}; {| vh_date := 2; vh_value := 120 |};
    {| vh_date := 3; vh_value := 90 |};  {| vh_date := 4; vh_value := 130 |};
    {| vh_date := 5; vh_value := 65 |};  {| vh_date := 6; vh_value := 80 |};
    {| vh_date := 7; vh_value := 70 |} ].

(** A value history that never declines. *)
Definition rising_history : list ValueHistoryPoint :=
  [ {| vh_date := 1; vh_value := 100 |}; {| vh_date := 2; vh_value := 110 |} ].

End Engine.

(** * Properties *)

(** ** txLabel *)

Module LabelsFacts.
Import Labels.

Lemma label_of_Some (t l : string) :
  label_of t = Some l ->
  In t taxonomy /\ l <> "" /\ inherited t = false.
Proof.
  unfold label_of, labels. intros H.
  apply elem_of_list_to_map_2 in H.
  repeat (apply elem_of_cons in H as [H | H];
          [inversion H; subst; vm_compute; intuition congruence |]).
  by apply elem_of_nil in H.
Qed.

Lemma taxonomy_labelled (t : string) :
  In t taxonomy -> exists l, label_of t = Some l.
Proof.
  unfold taxonomy. simpl.
  intros H.
  repeat (destruct H as [<- | H]; [eexists; vm_compute; reflexivity |]).
  destruct H.
Qed.

Lemma txLabel_own (t l : string) :
  label_of t = Some l -> txLabel t = VString l.
Proof.
  intros H. destruct (label_of_Some _ _ H) as (_ & Hl & _).
  unfold txLabel, getProperty. unfold label_of in H. rewrite H. simpl.
  destruct (String.eqb_spec l ""); [contradiction | reflexivity].
Qed.

Lemma txLabel_absent (t : string) :
  label_of t = None -> inherited t = false -> txLabel t = VString t.
Proof.
  unfold txLabel, getProperty, label_of. intros -> ->. reflexivity.
Qed.

Lemma txLabel_inherited (t : string) :
  inherited t = true -> txLabel t = VBuiltin t.
Proof.
  intros H. unfold txLabel, getProperty.
  destruct (labels !! t) as [l |] eqn:E.
  - apply label_of_Some in E as (_ & _ & E). congruence.
  - rewrite H. reflexivity.
Qed.

(** C7, as stated, at the type string "constructor": it is none of the
    fifteen types, and [txLabel] does not return it but the function that the
    label table inherits under that name. *)
Lemma txLabel_constructor :
  ~ (~ In "constructor" taxonomy -> txLabel "constructor" = VString "constructor").
Proof.
  intros H.
  assert (Hn : ~ In "constructor" taxonomy).
  { unfold taxonomy. simpl. intuition discriminate. }
  specialize (H Hn). vm_compute in H. discriminate H.
Qed.

(** C7, amended: for a type string [t] of the taxonomy [txLabel t] is its
    German label, which is not empty; for any other [t] that is not the name
    of a member of [Object.prototype], [txLabel t] is [t] itself; and for every
    non-empty [t] the result is neither [undefined] nor the empty string. *)
Theorem txLabel_spec (t : string) :
  (In t taxonomy ->
     exists l, label_of t = Some l /\ l <> "" /\ txLabel t = VString l) /\
  (~ In t taxonomy -> inherited t = false -> txLabel t = VString t) /\
  (t <> "" -> txLabel t <> VUndefined /\ txLabel t <> VString "").
Proof.
  split; [| split].
  - intros Hin. destruct (taxonomy_labelled t Hin) as [l Hl].
    exists l. destruct (label_of_Some _ _ Hl) as (_ & Hne & _).
    auto using txLabel_own.
  - intros Hout Hinh. apply txLabel_absent; [| exact Hinh].
    destruct (label_of t) as [l |] eqn:E; [| reflexivity].
    apply label_of_Some in E as [E _]. contradiction.
  - intros Hne.
    destruct (label_of t) as [l |] eqn:E.
    + destruct (label_of_Some _ _ E) as (_ & Hl & _).
      rewrite (txLabel_own _ _ E). split; congruence.
    + destruct (inherited t) eqn:Ei.
      * rewrite (txLabel_inherited _ Ei). split; discriminate.
      * rewrite (txLabel_absent _ E Ei). split; congruence.
Qed.

Lemma txLabel_spec_witness :
  txLabel "FEE_REFUND" = VString "Gebührenerstattung"
  /\ txLabel "BONUS" = VString "BONUS"
  /\ txLabel "BONUS" <> VUndefined.
Proof.
  split; [| split].
  - destruct (txLabel_spec "FEE_REFUND") as [H _].
    destruct H as (l & Hl & _ & Ht).
    + unfold taxonomy. simpl. tauto.
    + vm_compute in Hl. injection Hl as <-. exact Ht.
  - destruct (txLabel_spec "BONUS") as (_ & H & _).
    apply H; [| reflexivity].
    unfold taxonomy. simpl. intuition discriminate.
  - destruct (txLabel_spec "BONUS") as (_ & _ & H).
    apply H. discriminate.
Defined.

Example txLabel_PURCHASE : txLabel "PURCHASE" = VString "Kauf".
Proof. reflexivity. Qed.

Example txLabel_empty : txLabel "" = VString "".
Proof. reflexivity. Qed.

Example txLabel_proto : txLabel "__proto__" = VBuiltin "__proto__".
Proof. reflexivity. Qed.

End LabelsFacts.

(** ** esc *)

Module EscapeFacts.
Import Escape.

Lemma occurs_app (c : ascii) (a b : string) :
  occurs c (a ++ b) = occurs c a || occurs c b.
Proof.
  induction a as [| d a IH]; simpl; [reflexivity |].
  rewrite IH. apply orb_assoc.
Qed.

(** Two-step induction on strings, as [escapeText] consumes one or two
    characters at a time. *)
Lemma string_pair_ind (P : string -> Prop) :
  P "" ->
  (forall c, P (String c "")) ->
  (forall c d s, P s -> P (String d s) -> P (String c (String d s))) ->
  forall s, P s.
Proof.
  intros H0 H1 H2 s.
  assert (H : P s /\ forall c, P (String c s)).
  { induction s as [| d s [IH1 IH2]]; split; auto. }
  apply H.
Qed.

Lemma escapeText_single (c : ascii) :
  escapeText (String c "")
  = if Ascii.eqb c "&"%char then "&amp;"
    else if Ascii.eqb c "<"%char then "&lt;"
    else if Ascii.eqb c ">"%char then "&gt;"
    else String c "".
Proof.
  cbn [escapeText append].
  repeat (destruct (Ascii.eqb c _); [reflexivity |]).
  reflexivity.
Qed.

Lemma escapeText_double (c d : ascii) (s : string) :
  escapeText (String c (String d s))
  = if Ascii.eqb c "&"%char then "&amp;" ++ escapeText (String d s)
    else if Ascii.eqb c "<"%char then "&lt;" ++ escapeText (String d s)
    else if Ascii.eqb c ">"%char then "&gt;" ++ escapeText (String d s)
    else if Ascii.eqb c nbsp_lead then
      (if Ascii.eqb d nbsp_trail then "&nbsp;" ++ escapeText s
       else String c (escapeText (String d s)))
    else String c (escapeText (String d s)).
Proof. reflexivity. Qed.

Lemma occurs_cons (x c : ascii) (s : string) :
  occurs x (String c s) = Ascii.eqb x c || occurs x s.
Proof. reflexivity. Qed.

Ltac use_eqb_false :=
  repeat match goal with H : Ascii.eqb _ _ = false |- _ => rewrite H end.

(** A character that the escaping does not replace and that no entity is
    written with is neither added nor removed. *)
Lemma escapeText_keeps (x : ascii) (s : string) :
  occurs x "<>&amp;&lt;&gt;&nbsp;" = false ->
  x <> nbsp_lead -> x <> nbsp_trail ->
  occurs x (escapeText s) = occurs x s.
Proof.
  intros Hx Hl Ht. cbn [occurs] in Hx.
  repeat (apply orb_false_elim in Hx as [? Hx]).
  apply Ascii.eqb_neq in Hl, Ht.
  induction s as [| c | c d s IH1 IH2] using string_pair_ind.
  - reflexivity.
  - rewrite escapeText_single.
    destruct (Ascii.eqb_spec c "&"%char); [subst |].
    { cbn [occurs]. use_eqb_false. reflexivity. }
    destruct (Ascii.eqb_spec c "<"%char); [subst |].
    { cbn [occurs]. use_eqb_false. reflexivity. }
    destruct (Ascii.eqb_spec c ">"%char); [subst |].
    { cbn [occurs]. use_eqb_false. reflexivity. }
    reflexivity.
  - rewrite escapeText_double.
    destruct (Ascii.eqb_spec c "&"%char); [subst |].
    { rewrite occurs_app, IH2. cbn [occurs]. use_eqb_false. reflexivity. }
    destruct (Ascii.eqb_spec c "<"%char); [subst |].
    { rewrite occurs_app, IH2. cbn [occurs]. use_eqb_false. reflexivity. }
    destruct (Ascii.eqb_spec c ">"%char); [subst |].
    { rewrite occurs_app, IH2. cbn [occurs]. use_eqb_false. reflexivity. }
    destruct (Ascii.eqb_spec c nbsp_lead); [subst |].
    { destruct (Ascii.eqb_spec d nbsp_trail); [subst |].
      - rewrite occurs_app, IH1. cbn [occurs]. use_eqb_false. reflexivity.
      - rewrite !occurs_cons, IH2, occurs_cons. reflexivity. }
    rewrite !occurs_cons, IH2, occurs_cons. reflexivity.
Qed.

(** The escaped text holds no less-than and no greater-than sign. *)
Lemma escapeText_no_angle (s : string) :
  occurs "<"%char (escapeText s) = false /\ occurs ">"%char (escapeText s) = false.
Proof.
  induction s as [| c | c d s [IH1 IH1'] [IH2 IH2']] using string_pair_ind.
  - split; reflexivity.
  - rewrite escapeText_single.
    destruct (Ascii.eqb_spec c "&"%char); [split; reflexivity |].
    destruct (Ascii.eqb_spec c "<"%char); [split; reflexivity |].
    destruct (Ascii.eqb_spec c ">"%char); [split; reflexivity |].
    rewrite !occurs_cons. cbn [occurs]. rewrite !orb_false_r.
    split; apply Ascii.eqb_neq; congruence.
  - rewrite escapeText_double.
    destruct (Ascii.eqb_spec c "&"%char); [subst |].
    { rewrite !occurs_app, IH2, IH2'. split; reflexivity. }
    destruct (Ascii.eqb_spec c "<"%char); [subst |].
    { rewrite !occurs_app, IH2, IH2'. split; reflexivity. }
    destruct (Ascii.eqb_spec c ">"%char); [subst |].
    { rewrite !occurs_app, IH2, IH2'. split; reflexivity. }
    assert (Hc1 : Ascii.eqb "<"%char c = false) by (apply Ascii.eqb_neq; congruence).
    assert (Hc2 : Ascii.eqb ">"%char c = false) by (apply Ascii.eqb_neq; congruence).
    destruct (Ascii.eqb c nbsp_lead); [destruct (Ascii.eqb d nbsp_trail) |].
    + rewrite !occurs_app, IH1, IH1'. split; reflexivity.
    + rewrite !occurs_cons, IH2, IH2', Hc1, Hc2. split; reflexivity.
    + rewrite !occurs_cons, IH2, IH2', Hc1, Hc2. split; reflexivity.
Qed.

(** On a text without no-break space the escaping is the replacement of the
    three characters. *)
Lemma escapeText_entities (s : string) :
  occurs nbsp_lead s = false -> escapeText s = replace_entities s.
Proof.
  induction s as [| c s IH]; [reflexivity |].
  rewrite occurs_cons. intros H. apply orb_false_elim in H as [Hc Hs].
  rewrite Ascii.eqb_sym in Hc.
  cbn [escapeText replace_entities]. rewrite Hc, (IH Hs).
  destruct (Ascii.eqb c "&"%char); [reflexivity |].
  destruct (Ascii.eqb c "<"%char); [reflexivity |].
  destruct (Ascii.eqb c ">"%char); reflexivity.
Qed.

Example esc_nbsp :
  esc (VString (String nbsp_lead (String nbsp_trail "CHF"))) = "&nbsp;CHF".
Proof. reflexivity. Qed.

(** A falsy input gives the empty string. *)
Lemma esc_falsy (v : value) : ToBoolean v = false -> esc v = "".
Proof. unfold esc. intros ->. reflexivity. Qed.

Example esc_undefined : esc VUndefined = "".
Proof. reflexivity. Qed.

Example esc_null : esc VNull = "".
Proof. reflexivity. Qed.

Example esc_empty : esc (VString "") = "".
Proof. reflexivity. Qed.

Example esc_markup : esc (VString "<b>R&D</b>") = "&lt;b&gt;R&amp;D&lt;/b&gt;".
Proof. reflexivity. Qed.

Example esc_number : esc (VNumber 42) = "42".
Proof. reflexivity. Qed.

(** A truthy input comes back with its angle brackets gone. *)
Lemma esc_no_angle (v : value) :
  occurs "<"%char (esc v) = false /\ occurs ">"%char (esc v) = false.
Proof.
  unfold esc. destruct (negb (ToBoolean v)).
  - split; reflexivity.
  - apply escapeText_no_angle.
Qed.

(** The double quote and the apostrophe pass through [esc] as they are. *)
Lemma esc_keeps_quotes (s : string) :
  occurs "034"%char (esc (VString s)) = occurs "034"%char s
  /\ occurs "039"%char (esc (VString s)) = occurs "039"%char s.
Proof.
  unfold esc. simpl. destruct s as [| c s].
  - split; reflexivity.
  - change (negb (negb (String.eqb (String c s) ""))) with false.
    cbv iota.
    split; apply escapeText_keeps; try reflexivity; discriminate.
Qed.

(** C10 at a description with a double quote in it: [esc] returns it
    unchanged, the [title] attribute of the receiver cell ends after its first
    character, and the rest of the description is read as a second attribute
    of the cell, an event handler. *)
Theorem esc_attribute_breakout :
  esc (VString payload) = payload
  /\ receiverCell (VString payload) (VString "Hans")
     = "<td title=" ++ dquote ++ "x" ++ dquote
       ++ " onmouseover=" ++ dquote ++ "alert(1)" ++ dquote ++ ">Hans</td>".
Proof. split; reflexivity. Qed.

(** The same in the [onclick] attribute of a client entry: an apostrophe in
    the file name ends the string literal of the call. *)
Example esc_onclick_breakout :
  showClientAttr (VString ("O" ++ squote ++ "Brien.portfolio"))
  = "onclick=" ++ dquote ++ "showClient(" ++ squote ++ "O" ++ squote
    ++ "Brien.portfolio" ++ squote ++ ")" ++ dquote.
Proof. reflexivity. Qed.

End EscapeFacts.

(** ** Tab "Dividenden" *)

Module DividendenFacts.
Import Dividenden.

Lemma gt_spec (a b : Q) : gt a b = true <-> (b < a)%Q.
Proof.
  unfold gt. rewrite negb_true_iff.
  destruct (Qle_bool a b) eqn:E.
  - apply Qle_bool_iff in E. split; [discriminate |].
    intros H. exfalso. apply (Qlt_not_le _ _ H E).
  - split; [| reflexivity]. intros _.
    apply Qnot_le_lt. intros H. apply Qle_bool_iff in H. congruence.
Qed.

(** C5: the dividend-yield cell divides by [c.total_invested] only when it is
    greater than zero, and then shows the formatted quotient; for every other
    value, zero among them, it shows 0 and carries out no division at all.  So
    every division that was carried out had a positive divisor. *)
Theorem dividendenRendite_guarded (fmt : Q -> nat -> string)
  (total : Q) (total_invested : option Q) :
  let cell := dividendenRendite fmt total total_invested in
  Forall (fun d => (0 < divisor d)%Q) (snd cell)
  /\ (forall invested, total_invested = Some invested -> (0 < invested)%Q ->
        cell = (fmt (total / invested * 100)%Q 2 ++ "%",
                [ {| dividend := total; divisor := invested |} ]))
  /\ (gt0 total_invested = false -> cell = ("0%", []))
  /\ dividendenRendite fmt total (Some 0%Q) = ("0%", []).
Proof.
  cbv zeta. unfold dividendenRendite.
  destruct total_invested as [invested |]; simpl.
  - destruct (gt invested 0) eqn:E; simpl.
    + apply gt_spec in E. split; [| split; [| split]].
      * constructor; [exact E | constructor].
      * intros ? [= <-] _. reflexivity.
      * discriminate.
      * reflexivity.
    + split; [| split; [| split]].
      * constructor.
      * intros ? [= <-] H. apply gt_spec in H. congruence.
      * reflexivity.
      * reflexivity.
  - split; [| split; [| split]].
    + constructor.
    + discriminate.
    + reflexivity.
    + reflexivity.
Qed.

Lemma dividendenRendite_guarded_witness :
  dividendenRendite (fun _ _ => "4.00") 40 (Some 1000%Q)
  = ("4.00%", [ {| dividend := 40; divisor := 1000 |} ])
  /\ dividendenRendite (fun _ _ => "4.00") 40 (Some (-5)%Q) = ("0%", []).
Proof.
  split.
  - destruct (dividendenRendite_guarded (fun _ _ => "4.00") 40 (Some 1000%Q))
      as (_ & H & _).
    apply H; reflexivity.
  - destruct (dividendenRendite_guarded (fun _ _ => "4.00") 40 (Some (-5)%Q))
      as (_ & _ & H & _).
    apply H; reflexivity.
Defined.

End DividendenFacts.

(** ** Tab "Transaktionen" *)

Module TransaktionenFacts.
Import Transaktionen.

Lemma slice_lookup {A : Type} (l : list A) (a b j : nat) :
  slice l a b !! j = if (j <? b - a)%nat then l !! (a + j)%nat else None.
Proof.
  unfold slice. rewrite lookup_take.
  destruct (Nat.ltb_spec j (b - a)); case_decide; try lia.
  - apply lookup_drop.
  - reflexivity.
Qed.

Lemma slice_length {A : Type} (l : list A) (a b : nat) :
  (length (slice l a b) <= b - a)%nat.
Proof. unfold slice. apply firstn_le_length. Qed.

(** Consecutive slices of width [n] laid end to end give a prefix. *)
Lemma slices_concat {A : Type} (l : list A) (n k : nat) :
  concat (map (fun p => slice l (p * n) ((p + 1) * n)) (seq 0 k)) = take (k * n) l.
Proof.
  induction k as [| k IH].
  - reflexivity.
  - rewrite seq_S, map_app, concat_app, IH. simpl.
    rewrite app_nil_r. unfold slice.
    replace ((k + 1) * n - k * n)%nat with n by lia.
    rewrite take_take_drop. f_equal. lia.
Qed.

Lemma filtered_setTxPage (st : State) (all : list Tx) (p : nat) :
  filtered (setTxPage p st) all = filtered st all.
Proof. reflexivity. Qed.

Lemma page_eq (st : State) (all : list Tx) (p : nat) :
  page st all p = slice (filtered st all) (p * TX_PER_PAGE) ((p + 1) * TX_PER_PAGE).
Proof. reflexivity. Qed.

(** The page count is the ceiling of the quotient: the one integer [T] with
    [30 (T - 1) < length <= 30 T]. *)
Lemma totalPages_ceiling (st : State) (all : list Tx) :
  (30 * (totalPages st all - 1) < Z.of_nat (length (filtered st all))
   <= 30 * totalPages st all)%Z.
Proof.
  unfold totalPages.
  set (n := Z.of_nat (length (filtered st all))).
  set (x := (inject_Z n / inject_Z (Z.of_nat TX_PER_PAGE))%Q).
  assert (Hx : (x * 30 == inject_Z n)%Q).
  { unfold x. change (inject_Z (Z.of_nat TX_PER_PAGE)) with 30%Q. field. }
  pose proof (Qle_ceiling x) as Hle.
  pose proof (Qceiling_lt x) as Hlt.
  set (T := Qceiling x) in *.
  assert (H1 : (inject_Z n <= inject_Z T * 30)%Q).
  { rewrite <- Hx. apply Qmult_le_compat_r; [exact Hle | discriminate]. }
  assert (H2 : (inject_Z (T - 1) * 30 < inject_Z n)%Q).
  { rewrite <- Hx. apply Qmult_lt_compat_r; [reflexivity | exact Hlt]. }
  unfold Qle, Qlt in H1, H2. simpl in H1, H2. lia.
Qed.

Lemma filtered_type (st : State) (all : list Tx) :
  txFilter st <> "ALL" ->
  Forall (fun t => type t = txFilter st) (filtered st all).
Proof.
  intros Hne. unfold filtered.
  destruct (String.eqb_spec (txFilter st) "ALL"); [contradiction |].
  apply List.Forall_forall. intros t Ht.
  apply filter_In in Ht as [_ Ht]. by apply String.eqb_eq.
Qed.

Lemma slice_Forall {A : Type} (P : A -> Prop) (l : list A) (a b : nat) :
  Forall P l -> Forall P (slice l a b).
Proof. intros H. unfold slice. by apply Forall_take, Forall_drop. Qed.

(** C8: the tab shows the slice of the filtered list that belongs to the
    current page, at most thirty rows; the page count is the ceiling of the
    length over thirty; row [j] of page [p] is entry [30 p + j] of the filtered
    list, so that the pages laid end to end are the filtered list, each entry
    on one page and only there; and under a filter other than "ALL" every row
    shown has the selected type. *)
Theorem tabTransaktionen_pages (st : State) (all_transactions : list Tx) :
  let shown := filtered st all_transactions in
  let T := totalPages st all_transactions in
  rows (tabTransaktionen st all_transactions)
    = slice shown (30 * txPage st) (30 * (txPage st + 1))
  /\ (length (rows (tabTransaktionen st all_transactions)) <= 30)%nat
  /\ (30 * (T - 1) < Z.of_nat (length shown) <= 30 * T)%Z
  /\ (forall p j : nat,
        page st all_transactions p !! j
        = if (j <? 30)%nat then shown !! (30 * p + j)%nat else None)
  /\ concat (map (page st all_transactions) (seq 0 (Z.to_nat T))) = shown
  /\ (txFilter st <> "ALL" ->
        Forall (fun t => type t = txFilter st)
               (rows (tabTransaktionen st all_transactions))).
Proof.
  cbv zeta.
  pose proof (totalPages_ceiling st all_transactions) as HT.
  split; [| split; [| split; [| split; [| split]]]].
  - unfold tabTransaktionen, paged, TX_PER_PAGE. simpl rows.
    f_equal; lia.
  - unfold tabTransaktionen, paged. simpl rows.
    etransitivity; [apply slice_length |]. unfold TX_PER_PAGE. lia.
  - exact HT.
  - intros p j. rewrite page_eq, slice_lookup. unfold TX_PER_PAGE.
    replace ((p + 1) * 30 - p * 30)%nat with 30%nat by lia.
    replace (p * 30 + j)%nat with (30 * p + j)%nat by lia.
    reflexivity.
  - erewrite map_ext; [| intros p; apply page_eq].
    rewrite slices_concat. apply take_ge.
    unfold TX_PER_PAGE. lia.
  - intros Hne. unfold tabTransaktionen, paged. simpl rows.
    apply slice_Forall, filtered_type, Hne.
Qed.

Lemma tabTransaktionen_pages_witness :
  Forall (fun t => type t = "PURCHASE")
    (rows (tabTransaktionen {| txFilter := "PURCHASE"; txPage := 1 |} sample_ledger))
  /\ rows (tabTransaktionen {| txFilter := "PURCHASE"; txPage := 1 |} sample_ledger)
     = [sample_tx "PURCHASE"].
Proof.
  split.
  - apply (tabTransaktionen_pages {| txFilter := "PURCHASE"; txPage := 1 |} sample_ledger).
    simpl. discriminate.
  - reflexivity.
Defined.

Example totalPages_31 :
  totalPages {| txFilter := "PURCHASE"; txPage := 0 |} sample_ledger = 2%Z.
Proof. reflexivity. Qed.

Example totalPages_none :
  totalPages {| txFilter := "FEE"; txPage := 0 |} sample_ledger = 0%Z.
Proof. reflexivity. Qed.

End TransaktionenFacts.

(** ** Tab "Ausgaben" *)

Module FinanceFacts.
Import Finance.

(** *** Lists *)

Lemma filter_filter_and {A : Type} (p q : A -> bool) (l : list A) :
  List.filter q (List.filter p l) = List.filter (fun x => p x && q x) l.
Proof.
  induction l as [| x l IH]; simpl; [reflexivity |].
  destruct (p x); simpl; [destruct (q x) |]; by rewrite IH.
Qed.

Lemma filter_when {A : Type} (c : bool) (p : A -> bool) (l : list A) :
  (if c then List.filter p l else l) = List.filter (fun x => negb c || p x) l.
Proof.
  destruct c; simpl; [reflexivity |].
  induction l as [| x l IH]; simpl; congruence.
Qed.

(** *** The stable sort *)

Section Sorting.

Variable compareFn : FinTx -> FinTx -> Q.

Hypothesis before_total :
  forall a b, ~ not_after compareFn a b -> not_after compareFn b a.
Hypothesis before_trans :
  forall a b c,
    not_after compareFn a b -> not_after compareFn b c -> not_after compareFn a c.

Lemma insert_sorted_perm (x : FinTx) (l : list FinTx) :
  Permutation (insert_sorted compareFn x l) (x :: l).
Proof.
  induction l as [| y l IH]; simpl; [reflexivity |].
  destruct (Qle_bool (compareFn x y) 0); [reflexivity |].
  rewrite IH. apply perm_swap.
Qed.

Lemma sorted_by_perm (l : list FinTx) :
  Permutation (sorted_by compareFn l) l.
Proof.
  induction l as [| x l IH]; simpl; [reflexivity |].
  rewrite insert_sorted_perm. by constructor.
Qed.

Lemma insert_sorted_sorted (x : FinTx) (l : list FinTx) :
  StronglySorted (not_after compareFn) l ->
  StronglySorted (not_after compareFn) (insert_sorted compareFn x l).
Proof.
  induction 1 as [| y l Hs IH Hy]; simpl.
  - repeat constructor.
  - destruct (Qle_bool (compareFn x y) 0) eqn:E.
    + apply Qle_bool_iff in E.
      constructor; [by constructor |].
      constructor; [exact E |].
      eapply List.Forall_impl; [| exact Hy].
      intros z Hz. by apply before_trans with y.
    + assert (Hyx : not_after compareFn y x).
      { apply before_total. intros H. apply Qle_bool_iff in H. congruence. }
      constructor; [exact IH |].
      apply (Permutation_Forall (Permutation_sym (insert_sorted_perm x l))).
      by constructor.
Qed.

Lemma sorted_by_sorted (l : list FinTx) :
  StronglySorted (not_after compareFn) (sorted_by compareFn l).
Proof.
  induction l as [| x l IH]; simpl; [constructor |].
  by apply insert_sorted_sorted.
Qed.

End Sorting.

(** *** The store *)

Lemma extends_refl (g : Globals) : extends g g.
Proof. by repeat split. Qed.

Lemma extends_trans (g1 g2 g3 : Globals) :
  extends g1 g2 -> extends g2 g3 -> extends g1 g3.
Proof.
  intros (H1 & H2 & H3 & H4) (K1 & K2 & K3 & K4).
  repeat split; try congruence.
  intros r Hr. rewrite K4, H4; try done.
  apply elem_of_dom. rewrite H4 by done. by apply elem_of_dom.
Qed.

Lemma alloc_spec (l : list FinTx) (g : Globals) :
  let (r, g') := alloc l g in
  (r ∉ dom (heap g)) /\ heap g' !! r = Some l /\ extends g g'.
Proof.
  unfold alloc. set (r := fresh (dom (heap g))).
  assert (Hr : r ∉ dom (heap g)) by apply is_fresh.
  split; [exact Hr |]. split.
  - simpl. apply lookup_insert_eq.
  - repeat split. simpl. intros r0 Hr0.
    apply lookup_insert_ne. intros ->. contradiction.
Qed.

Lemma Array_filter_alloc (p : FinTx -> bool) (r : loc) (g : Globals)
  (l : list FinTx) :
  heap g !! r = Some l -> Array_filter p r g = alloc (List.filter p l) g.
Proof.
  intros H. unfold Array_filter, mbind, M_bind, contents. by rewrite H.
Qed.

Lemma Array_spread_alloc (r : loc) (g : Globals) (l : list FinTx) :
  heap g !! r = Some l -> Array_spread r g = alloc l g.
Proof.
  intros H. unfold Array_spread, mbind, M_bind, contents. by rewrite H.
Qed.

Lemma filter_if_spec (c : bool) (p : FinTx -> bool) (r : loc)
  (g : Globals) (l : list FinTx) :
  heap g !! r = Some l ->
  let (r', g') := filter_if c p r g in
  heap g' !! r' = Some (List.filter (fun t => negb c || p t) l) /\ extends g g'.
Proof.
  intros Hr. rewrite <- filter_when. unfold filter_if. destruct c.
  - rewrite (Array_filter_alloc _ _ _ _ Hr).
    pose proof (alloc_spec (List.filter p l) g) as H.
    destruct (alloc (List.filter p l) g) as [r' g'].
    destruct H as (_ & H1 & H2). by split.
  - split; [exact Hr | apply extends_refl].
Qed.

Lemma Array_spread_spec (r : loc) (g : Globals) (l : list FinTx) :
  heap g !! r = Some l ->
  let (r', g') := Array_spread r g in
  (r' ∉ dom (heap g)) /\ heap g' !! r' = Some l /\ extends g g'.
Proof.
  intros Hr. rewrite (Array_spread_alloc _ _ _ Hr). apply alloc_spec.
Qed.

(** *** The comparison function *)

Section Locale.

Variable toLowerCase : string -> string.
Variable localeCompare : string -> string -> Z.
Variable StringToNumber : string -> Number.

(** [localeCompare] is a consistent comparison: swapping the operands swaps
    the sign, and "not after" is transitive. *)
Hypothesis localeCompare_sgn :
  forall a b, Z.sgn (localeCompare a b) = (- Z.sgn (localeCompare b a))%Z.
Hypothesis localeCompare_trans :
  forall a b c,
    (localeCompare a b <= 0)%Z -> (localeCompare b c <= 0)%Z ->
    (localeCompare a c <= 0)%Z.

Lemma localeCompare_flip (a b : string) :
  (localeCompare a b <= 0 <-> 0 <= localeCompare b a)%Z.
Proof.
  pose proof (localeCompare_sgn a b) as H.
  destruct (Z.sgn_spec (localeCompare a b)) as [[? E] | [[? E] | [? E]]];
    destruct (Z.sgn_spec (localeCompare b a)) as [[? E'] | [[? E'] | [? E']]];
    rewrite E, E' in H; lia.
Qed.

Lemma inject_Z_up (z : Z) : (inject_Z z * 1 <= 0)%Q <-> (z <= 0)%Z.
Proof. unfold Qle. simpl. lia. Qed.

Lemma inject_Z_down (z : Z) : (inject_Z z * (-1) <= 0)%Q <-> (0 <= z)%Z.
Proof. unfold Qle. simpl. lia. Qed.

Lemma in_order_total (srt : Sort.t) (a b : FinTx) :
  ~ in_order localeCompare srt a b -> in_order localeCompare srt b a.
Proof.
  unfold in_order, compareFn.
  destruct (String.eqb (Sort.dir srt) "desc"), (Sort.field srt);
    rewrite ?inject_Z_up, ?inject_Z_down; intros H;
    first [ lra | apply localeCompare_flip; lia ].
Qed.

Lemma in_order_trans (srt : Sort.t) (a b c : FinTx) :
  in_order localeCompare srt a b -> in_order localeCompare srt b c ->
  in_order localeCompare srt a c.
Proof.
  unfold in_order, compareFn.
  destruct (String.eqb (Sort.dir srt) "desc"), (Sort.field srt);
    rewrite ?inject_Z_up, ?inject_Z_down; intros H1 H2;
    first [ lra
          | by eapply localeCompare_trans
          | apply localeCompare_flip in H1, H2; apply localeCompare_flip;
            by eapply localeCompare_trans ].
Qed.

(** The filters applied one after the other keep the rows that pass. *)
Lemma filters_compose (flt : Filter.t) (l : list FinTx) :
  List.filter (fun t => negb (truthy (Filter.endDatum flt))
                        || le_str StringToNumber (datum t) (Filter.endDatum flt))
   (List.filter (fun t => negb (truthy (Filter.startDatum flt))
                          || ge_str StringToNumber (datum t) (Filter.startDatum flt))
     (List.filter (fun t => negb (truthy (Filter.konto flt))
                            || strict_eq (konto t) (Filter.konto flt))
       (List.filter (fun t => negb (truthy (Filter.art flt))
                              || strict_eq (art t) (Filter.art flt))
         (List.filter (fun t => negb (truthy (Filter.kategorie flt))
                                || strict_eq (kategorie t) (Filter.kategorie flt))
           (List.filter (fun t => negb (truthy (Filter.search flt))
                                  || matches_search toLowerCase
                                       (toLowerCase (Filter.search flt)) t) l)))))
  = List.filter (passes toLowerCase StringToNumber flt) l.
Proof.
  rewrite !filter_filter_and. apply List.filter_ext.
  intros t. unfold passes. by rewrite !andb_assoc.
Qed.

Tactic Notation "step_filter" constr(H) ident(r) ident(g) ident(C) ident(X) :=
  match goal with
  | |- context [filter_if ?c ?p ?r0 ?g0] =>
      pose proof (filter_if_spec c p r0 g0 _ H) as C;
      destruct (filter_if c p r0 g0) as [r g];
      destruct C as [C X]
  end.

(** Where the date filters of the code and of the wording agree: on a row
    that has a [datum], and on every row when the bounds are date-shaped. *)
Lemma passes_satisfies (flt : Filter.t) (t : FinTx) :
  datum t <> None
  \/ (date_shaped StringToNumber (Filter.startDatum flt)
      /\ date_shaped StringToNumber (Filter.endDatum flt)) ->
  passes toLowerCase StringToNumber flt t = satisfies toLowerCase flt t.
Proof.
  intros H. unfold passes, satisfies, truthy, unset, matches_search, found,
    or_empty.
  rewrite !negb_involutive, !orb_assoc.
  change (strict_eq (kategorie t) (Filter.kategorie flt))
    with (reads (kategorie t) (Filter.kategorie flt)).
  change (strict_eq (art t) (Filter.art flt))
    with (reads (art t) (Filter.art flt)).
  change (strict_eq (konto t) (Filter.konto flt))
    with (reads (konto t) (Filter.konto flt)).
  assert (Hs : String.eqb (Filter.startDatum flt) ""
               || ge_str StringToNumber (datum t) (Filter.startDatum flt)
               = String.eqb (Filter.startDatum flt) ""
                 || from (Filter.startDatum flt) (datum t)).
  { destruct (datum t) as [d |]; [reflexivity |]. simpl.
    destruct H as [H | [[E | E] _]]; [done | | ].
    - rewrite E. reflexivity.
    - rewrite E. reflexivity. }
  assert (He : String.eqb (Filter.endDatum flt) ""
               || le_str StringToNumber (datum t) (Filter.endDatum flt)
               = String.eqb (Filter.endDatum flt) ""
                 || upto (Filter.endDatum flt) (datum t)).
  { destruct (datum t) as [d |]; [reflexivity |]. simpl.
    destruct H as [H | [_ [E | E]]]; [done | | ].
    - rewrite E. reflexivity.
    - rewrite E. reflexivity. }
  by rewrite Hs, He.
Qed.

(** What the comparison function of the code calls "not after" is the order
    asked for. *)
Lemma in_order_sorted_as_asked (srt : Sort.t) (a b : FinTx) :
  in_order localeCompare srt a b -> sorted_as_asked localeCompare srt a b.
Proof.
  unfold in_order, sorted_as_asked, compareFn.
  destruct (String.eqb (Sort.dir srt) "desc"), (Sort.field srt);
    rewrite ?inject_Z_up, ?inject_Z_down; unfold column, text_of, or_empty;
    intros H; first [ exact H | lra ].
Qed.

Lemma sorted_impl {A : Type} (R S : A -> A -> Prop) (l : list A) :
  (forall a b, R a b -> S a b) -> StronglySorted R l -> StronglySorted S l.
Proof.
  intros HRS. induction 1 as [| a l Hs IH Ha]; constructor; [exact IH |].
  eapply Forall_impl; [exact Ha | apply HRS].
Qed.


End Locale.

Lemma ordinalCompare_sgn (a b : string) :
  Z.sgn (ordinalCompare a b) = (- Z.sgn (ordinalCompare b a))%Z.
Proof.
  unfold ordinalCompare. rewrite (String_as_OT.cmp_antisym a b).
  by destruct (String_as_OT.cmp b a).
Qed.

Lemma ordinalCompare_trans (a b c : string) :
  (ordinalCompare a b <= 0)%Z -> (ordinalCompare b c <= 0)%Z ->
  (ordinalCompare a c <= 0)%Z.
Proof.
  unfold ordinalCompare.
  destruct (String_as_OT.cmp a b) eqn:Eab; [| | lia].
  - apply String_as_OT.cmp_eq in Eab as ->. tauto.
  - destruct (String_as_OT.cmp b c) eqn:Ebc; [| | lia].
    + apply String_as_OT.cmp_eq in Ebc as <-. rewrite Eab. lia.
    + intros _ _.
      apply String_as_OT.cmp_lt in Eab, Ebc.
      pose proof (String_as_OT.lt_trans _ _ _ Eab Ebc) as H.
      apply String_as_OT.cmp_lt in H. rewrite H. lia.
Qed.



(** The debits by amount, and the same rows by date, newest first, after a
    search for a text in capitals. *)
Example getFilteredFinTx_sample :
  let (r, g') := getFilteredFinTx lower ordinalCompare plainNumber sample_globals in
  heap g' !! r = Some [einkauf; miete]
  /\ heap g' !! financeTransactions g' = Some [miete; lohn; einkauf].
Proof. vm_compute. split; reflexivity. Qed.

Example getFilteredFinTx_search :
  let g := {| heap := heap sample_globals;
              financeTransactions := 0%nat;
              finFilter := {| Filter.search := "MI"; Filter.kategorie := "";
                              Filter.art := ""; Filter.konto := "";
                              Filter.startDatum := "2024-01-01";
                              Filter.endDatum := "2024-12-31" |};
              finSort := {| Sort.field := F_datum; Sort.dir := "desc" |} |} in
  let (r, g') := getFilteredFinTx lower ordinalCompare plainNumber g in
  heap g' !! r = Some [einkauf; miete].
Proof. vm_compute. reflexivity. Qed.

End FinanceFacts.

(** ** Max drawdown *)

Module DrawdownFacts.
Import Engine.
Local Open Scope list_scope.
Local Open Scope Q_scope.

Lemma Qltb_lt (a b : Q) : Qltb a b = true <-> a < b.
Proof.
  unfold Qltb. rewrite negb_true_iff.
  destruct (Qle_bool b a) eqn:E.
  - apply Qle_bool_iff in E. split; [discriminate | lra].
  - split; [| reflexivity]. intros _.
    apply Qnot_le_lt. intros H. apply Qle_bool_iff in H. congruence.
Qed.

Lemma Qltb_ge (a b : Q) : Qltb a b = false <-> b <= a.
Proof.
  destruct (Qltb a b) eqn:E.
  - apply Qltb_lt in E. split; [discriminate | lra].
  - split; [| reflexivity]. intros _.
    apply Qnot_lt_le. intros H. apply Qltb_lt in H. congruence.
Qed.

Lemma ratio_mono (a b x : Q) :
  0 < a -> a <= b -> 0 <= x -> (a - x) / a <= (b - x) / b.
Proof.
  intros Ha Hab Hx.
  assert (Hb : 0 < b) by lra.
  apply Qle_shift_div_l; [exact Hb |].
  unfold Qdiv. rewrite <- Qmult_assoc, (Qmult_comm (/ a)), Qmult_assoc.
  apply Qle_shift_div_r; [exact Ha | nra].
Qed.

Lemma decline_nonneg (pk v : Q) : v <= pk -> 0 <= decline pk v.
Proof.
  intros H. unfold decline. destruct (Qltb 0 pk) eqn:E; [| lra].
  apply Qltb_lt in E.
  apply Qmult_le_0_compat; [| lra].
  apply Qle_shift_div_l; lra.
Qed.

Lemma decline_self (v : Q) : decline v v == 0.
Proof.
  unfold decline. destruct (Qltb 0 v) eqn:E; [| reflexivity].
  apply Qltb_lt in E. field. lra.
Qed.

(** A higher peak makes the decline to the same value larger. *)
Lemma decline_mono (a b x : Q) :
  0 <= x -> a <= b -> x <= b -> decline a x <= decline b x.
Proof.
  intros Hx Hab Hxb.
  pose proof (decline_nonneg b x Hxb) as Hb.
  unfold decline in *.
  destruct (Qltb 0 a) eqn:Ea; [| destruct (Qltb 0 b); lra].
  apply Qltb_lt in Ea.
  assert (Eb : Qltb 0 b = true) by (apply Qltb_lt; lra).
  rewrite Eb.
  apply Qmult_le_compat_r; [| lra].
  by apply ratio_mono.
Qed.

Lemma decline_compat (a b x : Q) : a == b -> decline a x == decline b x.
Proof.
  intros H. unfold decline.
  destruct (Qltb 0 a) eqn:Ea; destruct (Qltb 0 b) eqn:Eb.
  - by rewrite H.
  - apply Qltb_lt in Ea. apply Qltb_ge in Eb. lra.
  - apply Qltb_ge in Ea. apply Qltb_lt in Eb. lra.
  - reflexivity.
Qed.

Lemma scan_step_first (p : ValueHistoryPoint) :
  scan_step (scan_start p) p = scan_start p.
Proof.
  unfold scan_step, scan_start. simpl.
  destruct (Qltb (vh_value p) (vh_value p)).
  - assert (E : Qltb 0 (decline (vh_value p) (vh_value p)) = false).
    { apply Qltb_ge. rewrite decline_self. lra. }
    by rewrite E.
  - assert (E : Qltb 0 (decline (vh_value p) (vh_value p)) = false).
    { apply Qltb_ge. rewrite decline_self. lra. }
    by rewrite E.
Qed.

Lemma scanned_first (p : ValueHistoryPoint) : scanned [p] (scan_start p).
Proof.
  unfold scanned, scan_start. simpl.
  split; [| split; [| split; [| split]]].
  - intros [| i] q Hq; simplify_eq/=. lra.
  - exists 0%nat, p. by repeat split.
  - lra.
  - intros [| i] [| j] q1 q2 H1 H2 _ _; simplify_eq/=.
    rewrite decline_self. lra.
  - left. split; [reflexivity | reflexivity].
Qed.

(** The peak for an earlier point is the same in a longer history. *)
Lemma peak_for_snoc (seen : list ValueHistoryPoint) (x p : ValueHistoryPoint)
  (j : nat) :
  (j < length seen)%nat -> (peak_for (seen ++ [x]) j p <-> peak_for seen j p).
Proof.
  intros Hj. unfold peak_for. split; intros H k r Hk Hr.
  - apply (H k r Hk). rewrite lookup_app_l by lia. exact Hr.
  - apply (H k r Hk). rewrite lookup_app_l in Hr by lia. exact Hr.
Qed.

(** The recorded pair stays in the history when a point is added. *)
Lemma recorded_kept (seen : list ValueHistoryPoint) (x : ValueHistoryPoint)
  (per : option (Z * Z)) (m : Q) :
  (per = None /\ m == 0)
  \/ (exists i j p q,
        per = Some (vh_date p, vh_date q)
        /\ (i < j)%nat /\ seen !! i = Some p /\ seen !! j = Some q
        /\ peak_for seen j p
        /\ decline (vh_value p) (vh_value q) == m /\ 0 < m) ->
  (per = None /\ m == 0)
  \/ (exists i j p q,
        per = Some (vh_date p, vh_date q)
        /\ (i < j)%nat /\ (seen ++ [x]) !! i = Some p /\ (seen ++ [x]) !! j = Some q
        /\ peak_for (seen ++ [x]) j p
        /\ decline (vh_value p) (vh_value q) == m /\ 0 < m).
Proof.
  intros [H | (i & j & p & q & Hper & Hij & Hp & Hq & Hpk & Hd & Hm)];
    [by left | right].
  assert (Hj : (j < length seen)%nat) by (by eapply lookup_lt_Some).
  exists i, j, p, q. repeat split; try done.
  - rewrite lookup_app_l by lia. exact Hp.
  - rewrite lookup_app_l by lia. exact Hq.
  - by apply peak_for_snoc.
Qed.

Lemma scanned_step (seen : list ValueHistoryPoint) (s : Scan)
  (x : ValueHistoryPoint) :
  scanned seen s -> scanned (seen ++ [x]) (scan_step s x).
Proof.
  intros (Hpk & (k & pp & Hk & Hpv & Hpd) & Hnn & Hall & Hper).
  assert (Hklt : (k < length seen)%nat) by (by eapply lookup_lt_Some).
  (* a pair that ends in an earlier point is a pair of the shorter history *)
  assert (Hold : forall i j p q,
            (seen ++ [x]) !! i = Some p -> (seen ++ [x]) !! j = Some q ->
            (i <= j)%nat -> (j < length seen)%nat ->
            peak_for (seen ++ [x]) j p ->
            decline (vh_value p) (vh_value q) <= max_drawdown s).
  { intros i j p q Hp Hq Hij Hj Hpf.
    rewrite lookup_app_l in Hp by lia. rewrite lookup_app_l in Hq by lia.
    apply (Hall i j p q Hp Hq Hij). by apply peak_for_snoc in Hpf. }
  unfold scan_step.
  destruct (Qltb (peak s) (vh_value x)) eqn:Epk.
  - (* a new peak *)
    apply Qltb_lt in Epk.
    assert (Edd : Qltb (max_drawdown s) (decline (vh_value x) (vh_value x)) = false).
    { apply Qltb_ge. rewrite decline_self. exact Hnn. }
    rewrite Edd. unfold scanned. simpl.
    split; [| split; [| split; [| split]]].
    + intros i p Hp.
      apply lookup_snoc_Some in Hp as [[_ Hp] | [_ <-]]; [| lra].
      specialize (Hpk _ _ Hp). lra.
    + exists (length seen), x. repeat split.
      apply lookup_snoc_Some. right. done.
    + exact Hnn.
    + intros i j p q Hp Hq Hij Hpf.
      pose proof Hq as Hq'.
      apply lookup_snoc_Some in Hq' as [[Hj _] | [Hj <-]].
      * by apply (Hold i j p q).
      * (* the peak for the new point is the new point *)
        assert (E : vh_value p == vh_value x).
        { apply Qle_antisym.
          - apply lookup_snoc_Some in Hp as [[_ Hp] | [_ <-]]; [| lra].
            specialize (Hpk _ _ Hp). lra.
          - apply (Hpf j x); [lia | exact Hq]. }
        rewrite (decline_compat _ _ _ E), decline_self. exact Hnn.
    + by apply recorded_kept.
  - (* the peak stays *)
    apply Qltb_ge in Epk.
    assert (Hall' : forall i p, (seen ++ [x]) !! i = Some p -> vh_value p <= peak s).
    { intros i p Hp.
      apply lookup_snoc_Some in Hp as [[_ Hp] | [_ <-]]; [| lra].
      by eapply Hpk. }
    (* the peak for the new point has the value of the running peak *)
    assert (Hnew : forall i p, (seen ++ [x]) !! i = Some p ->
              peak_for (seen ++ [x]) (length seen) p ->
              decline (vh_value p) (vh_value x) == decline (peak s) (vh_value x)).
    { intros i p Hp Hpf. apply decline_compat. apply Qle_antisym.
      - by eapply Hall'.
      - rewrite <- Hpv. apply (Hpf k pp); [lia |].
        rewrite lookup_app_l by lia. exact Hk. }
    destruct (Qltb (max_drawdown s) (decline (peak s) (vh_value x))) eqn:Edd.
    + (* a larger decline *)
      apply Qltb_lt in Edd.
      unfold scanned. simpl.
      split; [| split; [| split; [| split]]].
      * exact Hall'.
      * exists k, pp. repeat split; try done.
        apply lookup_snoc_Some. by left.
      * lra.
      * intros i j p q Hp Hq Hij Hpf.
        pose proof Hq as Hq'.
        apply lookup_snoc_Some in Hq' as [[Hj _] | [Hj <-]].
        -- pose proof (Hold i j p q Hp Hq Hij Hj Hpf). lra.
        -- subst j. rewrite (Hnew i p Hp Hpf). lra.
      * right. exists k, (length seen), pp, x. rewrite Hpd, Hpv.
        split; [done |]. split; [lia |].
        split; [rewrite lookup_app_l by lia; exact Hk |].
        split; [apply lookup_snoc_Some; by right |].
        split; [| split; [reflexivity | lra]].
        intros k' r _ Hr. rewrite Hpv. by eapply Hall'.
    + (* nothing new *)
      apply Qltb_ge in Edd.
      unfold scanned. simpl.
      split; [| split; [| split; [| split]]].
      * exact Hall'.
      * exists k, pp. repeat split; try done.
        apply lookup_snoc_Some. by left.
      * exact Hnn.
      * intros i j p q Hp Hq Hij Hpf.
        pose proof Hq as Hq'.
        apply lookup_snoc_Some in Hq' as [[Hj _] | [Hj <-]].
        -- by apply (Hold i j p q).
        -- subst j. rewrite (Hnew i p Hp Hpf). exact Edd.
      * by apply recorded_kept.
Qed.

Lemma scanned_fold (rest seen : list ValueHistoryPoint) (s : Scan) :
  scanned seen s -> scanned (seen ++ rest) (fold_left scan_step rest s).
Proof.
  revert seen s. induction rest as [| x rest IH]; intros seen s Hs.
  - by rewrite app_nil_r.
  - simpl. rewrite cons_middle, app_assoc.
    apply IH. by apply scanned_step.
Qed.

Lemma scanned_drawdown (h : list ValueHistoryPoint) :
  h <> [] -> scanned h (drawdown h).
Proof.
  destruct h as [| p rest]; [done |]. intros _.
  change (drawdown (p :: rest))
    with (fold_left scan_step rest (scan_step (scan_start p) p)).
  rewrite scan_step_first.
  apply (scanned_fold rest [p]), scanned_first.
Qed.

(** Every point of a history has a peak at or before it. *)
Lemma has_peak (h : list ValueHistoryPoint) (j : nat) (q : ValueHistoryPoint) :
  h !! j = Some q ->
  exists i p, (i <= j)%nat /\ h !! i = Some p /\ peak_for h j p.
Proof.
  revert q. induction j as [| j IH]; intros q Hq.
  - exists 0%nat, q. split; [lia |]. split; [exact Hq |].
    intros k r Hk Hr. assert (k = 0%nat) as -> by lia.
    rewrite Hq in Hr. injection Hr as ->. lra.
  - assert (Hj : is_Some (h !! j)).
    { apply lookup_lt_is_Some. apply lookup_lt_Some in Hq. lia. }
    destruct Hj as [q' Hq'].
    destruct (IH q' Hq') as (i & p & Hi & Hp & Hpf).
    destruct (Qlt_le_dec (vh_value p) (vh_value q)) as [Hlt | Hge].
    + exists (S j), q. split; [lia |]. split; [exact Hq |].
      intros k r Hk Hr.
      destruct (decide (k = S j)) as [-> | Hne].
      * rewrite Hq in Hr. injection Hr as ->. lra.
      * pose proof (Hpf k r ltac:(lia) Hr). lra.
    + exists i, p. split; [lia |]. split; [exact Hp |].
      intros k r Hk Hr.
      destruct (decide (k = S j)) as [-> | Hne].
      * rewrite Hq in Hr. injection Hr as ->. exact Hge.
      * apply (Hpf k r); [lia | exact Hr].
Qed.

Lemma increasing_head (p : ValueHistoryPoint) (rest : list ValueHistoryPoint) :
  increasing (p :: rest) = true ->
  increasing rest = true /\ Forall (fun q => (vh_date p < vh_date q)%Z) rest.
Proof.
  revert p. induction rest as [| q rest IH]; intros p H.
  - by split.
  - change (increasing (p :: q :: rest))
      with ((vh_date p <? vh_date q)%Z && increasing (q :: rest)) in H.
    apply andb_true_iff in H as [Hpq Hrest].
    apply Z.ltb_lt in Hpq.
    split; [exact Hrest |].
    constructor; [exact Hpq |].
    destruct (IH q Hrest) as [_ Hq].
    eapply List.Forall_impl; [| exact Hq]. simpl. intros. lia.
Qed.

Lemma increasing_lookup (h : list ValueHistoryPoint) (i j : nat)
  (p q : ValueHistoryPoint) :
  increasing h = true -> (i < j)%nat ->
  h !! i = Some p -> h !! j = Some q -> (vh_date p < vh_date q)%Z.
Proof.
  revert i j. induction h as [| x h IH]; intros i j Hinc Hij Hp Hq; [done |].
  destruct (increasing_head _ _ Hinc) as [Hrest Hx].
  destruct j as [| j]; [lia |]. simpl in Hq.
  destruct i as [| i]; simpl in Hp.
  - injection Hp as ->.
    rewrite List.Forall_forall in Hx. apply Hx.
    apply list_elem_of_In. by eapply list_elem_of_lookup_2.
  - apply (IH i j); [done | lia | done | done].
Qed.



(** The largest of the three drops of the sample history is the second one,
    of a half, from day 4 to day 5. *)
Example drawdown_sample :
  max_drawdown (drawdown sample_history) == 50
  /\ period (drawdown sample_history) = Some (4, 5)%Z.
Proof. split; [vm_compute; reflexivity | vm_compute; reflexivity]. Qed.

(** A history that never declines has the maximum drawdown zero and no
    dates. *)
Example drawdown_rising :
  drawdown rising_history
  = {| peak := 110; peak_date := 2; max_drawdown := 0; period := None |}.
Proof. vm_compute. reflexivity. Qed.

End DrawdownFacts.

(** ** Arrays *)

Module ArraysFacts.
Import Arrays.
Local Open Scope list_scope.

Section Sort.

Context {A : Type}.
Variable after : A -> A -> bool.

Lemma insert_perm (x : A) (l : list A) : Permutation (insert after x l) (x :: l).
Proof.
  induction l as [| y l IH]; simpl; [reflexivity |].
  destruct (after x y); [| reflexivity].
  rewrite IH. apply perm_swap.
Qed.

Lemma sort_perm (l : list A) : Permutation (sort after l) l.
Proof.
  induction l as [| x l IH]; simpl; [reflexivity |].
  rewrite insert_perm. by constructor.
Qed.

Lemma sort_length (l : list A) : length (sort after l) = length l.
Proof. apply Permutation_length, sort_perm. Qed.

Hypothesis after_asym : forall a b, after a b = true -> after b a = false.
Hypothesis in_place_trans :
  forall a b c, in_place after a b -> in_place after b c -> in_place after a c.

Lemma insert_in_place (x : A) (l : list A) :
  StronglySorted (in_place after) l ->
  StronglySorted (in_place after) (insert after x l).
Proof.
  induction 1 as [| y l Hs IH Hy]; simpl.
  - repeat constructor.
  - destruct (after x y) eqn:E.
    + constructor; [exact IH |].
      apply (Permutation_Forall (Permutation_sym (insert_perm x l))).
      constructor; [by apply after_asym | exact Hy].
    + constructor; [by constructor |].
      constructor; [exact E |].
      eapply List.Forall_impl; [| exact Hy].
      intros z Hz. by apply in_place_trans with y.
Qed.

Lemma sort_sorted (l : list A) : StronglySorted (in_place after) (sort after l).
Proof.
  induction l as [| x l IH]; simpl; [constructor |].
  by apply insert_in_place.
Qed.

End Sort.

Lemma elem_of_drop_in {A : Type} (y : A) (k : nat) (l : list A) :
  y ∈ drop k l -> y ∈ l.
Proof.
  revert k. induction l as [| a l IH]; intros [| k] H; simpl in H; try done.
  apply elem_of_cons. right. by eapply IH.
Qed.

Lemma elem_of_take_in {A : Type} (x : A) (k : nat) (l : list A) :
  x ∈ take k l -> x ∈ l.
Proof.
  intros H. apply elem_of_take in H as (i & Hi & _).
  by eapply list_elem_of_lookup_2.
Qed.

(** In a sorted list every element of a prefix may stand before every
    element of the rest. *)
Lemma sorted_take_drop {A : Type} (R : A -> A -> Prop) (l : list A) (k : nat) :
  StronglySorted R l ->
  forall x y, x ∈ take k l -> y ∈ drop k l -> R x y.
Proof.
  intros Hs. revert k. induction Hs as [| a l Hs IH Ha]; intros k x y Hx Hy.
  - rewrite take_nil in Hx. by apply elem_of_nil in Hx.
  - destruct k as [| k]; [by apply elem_of_nil in Hx |].
    simpl in Hx, Hy. apply elem_of_cons in Hx as [-> | Hx].
    + rewrite List.Forall_forall in Ha. apply Ha.
      apply list_elem_of_In. by eapply elem_of_drop_in.
    + by eapply IH.
Qed.

Section Unique.

Context {A : Type}.
Variable same : A -> A -> bool.
Hypothesis same_eq : forall a b, same a b = true <-> a = b.

Lemma existsb_same (x : A) (l : list A) : existsb (same x) l = true <-> x ∈ l.
Proof.
  rewrite existsb_exists. split.
  - intros (y & Hy & E). apply same_eq in E as ->. by apply list_elem_of_In.
  - intros H. exists x. split; [by apply list_elem_of_In | by apply same_eq].
Qed.

Lemma unique_from_spec (l seen : list A) :
  NoDup (unique_from same seen l)
  /\ forall x, x ∈ unique_from same seen l <-> x ∈ l /\ x ∉ seen.
Proof.
  revert seen. induction l as [| a l IH]; intros seen; simpl.
  - split; [constructor |]. intros x. split; [by intros H%elem_of_nil |].
    by intros [H%elem_of_nil _].
  - destruct (existsb (same a) seen) eqn:E.
    + apply existsb_same in E.
      destruct (IH seen) as [Hnd Hin]. split; [exact Hnd |].
      intros x. rewrite Hin, elem_of_cons. split; [tauto |].
      intros [[-> | H] Hs]; [contradiction | tauto].
    + assert (Ha : a ∉ seen).
      { intros H. apply existsb_same in H. congruence. }
      destruct (IH (a :: seen)) as [Hnd Hin]. split.
      * constructor; [| exact Hnd].
        rewrite Hin. intros [_ H]. apply H. by left.
      * intros x. rewrite !elem_of_cons, Hin, elem_of_cons.
        split.
        -- intros [-> | [H1 H2]]; [tauto |]. split; [tauto |].
           intros H. apply H2. tauto.
        -- intros [[-> | H] Hs]; [tauto |].
           destruct (same x a) eqn:Exa.
           ++ apply same_eq in Exa. tauto.
           ++ right. split; [exact H |]. intros [-> | H']; [| contradiction].
              assert (same a a = true) by (by apply same_eq). congruence.
Qed.

Lemma unique_spec (l : list A) :
  NoDup (unique same l) /\ forall x, x ∈ unique same l <-> x ∈ l.
Proof.
  destruct (unique_from_spec l []) as [H1 H2]. split; [exact H1 |].
  intros x. unfold unique. rewrite H2. split; [tauto |].
  intros H. split; [exact H | by intros H'%elem_of_nil].
Qed.

End Unique.

End ArraysFacts.

(** ** Formatting helpers *)

Module FormattingFacts.
Import Formatting.
Local Open Scope list_scope.

(** [truncate] keeps a text of at most [n] units as it is; of a longer one it
    keeps the first [n] units and appends three dots, so that the result has
    [n + 3] units, which is more than the text had when that was [n + 1] or
    [n + 2] units long.  In every case the result has at most [n + 3] units
    and starts with the first [n] units of the text. *)
Theorem truncate_bounds (s : list N) (n : nat) :
  (length (truncate s n) <= n + 3)%nat
  /\ take n (truncate s n) = take n s
  /\ ((length s <= n)%nat -> truncate s n = s)
  /\ ((n < length s)%nat ->
        truncate s n = take n s ++ ellipsis
        /\ length (truncate s n) = (n + 3)%nat).
Proof.
  unfold truncate.
  destruct (Nat.ltb_spec n (length s)) as [Hlt | Hge].
  - assert (Hlen : length (take n s) = n) by (rewrite length_take; lia).
    split; [rewrite length_app, Hlen; simpl; lia |].
    split; [rewrite take_app_le, take_take by lia; f_equal; lia |].
    split; [lia |]. intros _.
    split; [reflexivity | rewrite length_app, Hlen; simpl; lia].
  - split; [lia |]. split; [reflexivity |]. split; [done | lia].
Qed.

Lemma truncate_bounds_witness :
  truncate [65; 66; 67; 68]%N 3 = [65; 66; 67; 46; 46; 46]%N
  /\ truncate [65; 66; 67]%N 3 = [65; 66; 67]%N.
Proof.
  split.
  - destruct (truncate_bounds [65; 66; 67; 68]%N 3) as (_ & _ & _ & H).
    destruct H as [H _]; [simpl; lia | exact H].
  - destruct (truncate_bounds [65; 66; 67]%N 3) as (_ & _ & H & _).
    apply H. simpl. lia.
Defined.

Lemma gt_le (v w : Q) : Dividenden.gt v w = false <-> (v <= w)%Q.
Proof.
  destruct (Dividenden.gt v w) eqn:E.
  - apply DividendenFacts.gt_spec in E. split; [discriminate | lra].
  - split; [| reflexivity]. intros _.
    apply Qnot_lt_le. intros H. apply DividendenFacts.gt_spec in H. congruence.
Qed.

(** The six colours of the heatmap stand for six bands of the return: the
    three greens for returns above 5, above 2 up to 5, and above 0 up to 2,
    the three reds for returns above -2 up to 0, above -5 up to -2, and up to
    -5.  A return of exactly zero is red. *)
Theorem heatmapColor_bands (v : Q) :
  (heatmapColor v = "rgba(34,197,94,0.7)" <-> 5 < v)%Q
  /\ (heatmapColor v = "rgba(34,197,94,0.4)" <-> 2 < v /\ v <= 5)%Q
  /\ (heatmapColor v = "rgba(34,197,94,0.2)" <-> 0 < v /\ v <= 2)%Q
  /\ (heatmapColor v = "rgba(239,68,68,0.2)" <-> -2 < v /\ v <= 0)%Q
  /\ (heatmapColor v = "rgba(239,68,68,0.4)" <-> -5 < v /\ v <= -2)%Q
  /\ (heatmapColor v = "rgba(239,68,68,0.7)" <-> v <= -5)%Q.
Proof.
  unfold heatmapColor.
  destruct (Dividenden.gt v 5) eqn:E5; [apply DividendenFacts.gt_spec in E5 | apply gt_le in E5].
  { repeat split; intros; try discriminate; try lra. }
  destruct (Dividenden.gt v 2) eqn:E2; [apply DividendenFacts.gt_spec in E2 | apply gt_le in E2].
  { repeat split; intros; try discriminate; try lra. }
  destruct (Dividenden.gt v 0) eqn:E0; [apply DividendenFacts.gt_spec in E0 | apply gt_le in E0].
  { repeat split; intros; try discriminate; try lra. }
  destruct (Dividenden.gt v (-2)) eqn:E2'; [apply DividendenFacts.gt_spec in E2' | apply gt_le in E2'].
  { repeat split; intros; try discriminate; try lra. }
  destruct (Dividenden.gt v (-5)) eqn:E5'; [apply DividendenFacts.gt_spec in E5' | apply gt_le in E5'].
  { repeat split; intros; try discriminate; try lra. }
  repeat split; intros; try discriminate; try lra.
Qed.

Example heatmapColor_zero : heatmapColor 0 = "rgba(239,68,68,0.2)".
Proof. reflexivity. Qed.

End FormattingFacts.

(** ** Reading back what [esc] wrote *)

Module UnescapeFacts.
Import Escape Unescape.

Lemma decodeText_other (c : ascii) (s : string) :
  c <> "&"%char -> decodeText (String c s) = String c (decodeText s).
Proof.
  intros Hc. destruct c as [[] [] [] [] [] [] [] []];
    try reflexivity; by destruct Hc.
Qed.

Lemma decodeText_escapeText (s : string) : decodeText (escapeText s) = s.
Proof.
  induction s as [| c | c d s IH1 IH2] using EscapeFacts.string_pair_ind.
  - reflexivity.
  - rewrite EscapeFacts.escapeText_single.
    destruct (Ascii.eqb_spec c "&"%char); [by subst |].
    destruct (Ascii.eqb_spec c "<"%char); [by subst |].
    destruct (Ascii.eqb_spec c ">"%char); [by subst |].
    by rewrite decodeText_other.
  - rewrite EscapeFacts.escapeText_double.
    destruct (Ascii.eqb_spec c "&"%char); [subst |].
    { change (decodeText ("&amp;" ++ escapeText (String d s)))
        with (String "&" (decodeText (escapeText (String d s)))).
      by rewrite IH2. }
    destruct (Ascii.eqb_spec c "<"%char); [subst |].
    { change (decodeText ("&lt;" ++ escapeText (String d s)))
        with (String "<" (decodeText (escapeText (String d s)))).
      by rewrite IH2. }
    destruct (Ascii.eqb_spec c ">"%char); [subst |].
    { change (decodeText ("&gt;" ++ escapeText (String d s)))
        with (String ">" (decodeText (escapeText (String d s)))).
      by rewrite IH2. }
    destruct (Ascii.eqb_spec c nbsp_lead); [subst |].
    { destruct (Ascii.eqb_spec d nbsp_trail); [subst |].
      - change (decodeText ("&nbsp;" ++ escapeText s))
          with (String nbsp_lead (String nbsp_trail (decodeText (escapeText s)))).
        by rewrite IH1.
      - rewrite decodeText_other by done. by rewrite IH2. }
    rewrite decodeText_other by done. by rewrite IH2.
Qed.

(** What [esc] returns for a text can be read back: replacing the four
    entities by their characters gives the text again.  So two different
    texts never have the same escaped form. *)
Theorem esc_read_back (s t : string) :
  decodeText (esc (VString s)) = s
  /\ (esc (VString s) = esc (VString t) -> s = t).
Proof.
  assert (H : forall u, esc (VString u) = escapeText u).
  { intros [| c u]; reflexivity. }
  split.
  - rewrite H. apply decodeText_escapeText.
  - rewrite !H. intros E.
    rewrite <- (decodeText_escapeText s), <- (decodeText_escapeText t).
    by rewrite E.
Qed.

(** Whatever value [esc] is given, what it returns holds no angle bracket:
    written into the content of an element it is text, and no tag starts or
    ends in it. *)
Theorem esc_opens_no_tag (v : value) :
  occurs "<"%char (esc v) = false /\ occurs ">"%char (esc v) = false.
Proof.
  unfold esc. destruct (negb (ToBoolean v)).
  - split; reflexivity.
  - apply EscapeFacts.escapeText_no_angle.
Qed.

Lemma esc_read_back_witness :
  decodeText (esc (VString "R&D <b>")) = "R&D <b>"
  /\ (esc (VString "a") = esc (VString "a") -> "a" = "a").
Proof.
  split.
  - apply (esc_read_back "R&D <b>" "").
  - apply (esc_read_back "a" "a").
Defined.

End UnescapeFacts.

(** ** The heatmap *)

Module HeatmapFacts.
Import Heatmap.
Local Open Scope list_scope.

(** *** Decimal texts and keys *)

Lemma digits_no_dash (d : Decimal.uint) :
  occurs "-"%char (NilEmpty.string_of_uint d) = false.
Proof. induction d; simpl; auto. Qed.

Lemma decimal_no_dash (n : nat) : occurs "-"%char (decimal n) = false.
Proof.
  unfold decimal, NilZero.string_of_uint.
  destruct (Nat.to_uint n) eqn:E; try (rewrite <- E; apply digits_no_dash).
  reflexivity.
Qed.

Lemma to_uint_not_nil (n : nat) : Nat.to_uint n <> Decimal.Nil.
Proof.
  intros H. pose proof (DecimalNat.Unsigned.of_to n) as E.
  rewrite H in E. simpl in E. subst n. discriminate H.
Qed.

Lemma decimal_inj (a b : nat) : decimal a = decimal b -> a = b.
Proof.
  unfold decimal. intros H.
  apply DecimalNat.Unsigned.to_uint_inj.
  pose proof (NilZero.usu _ (to_uint_not_nil a)) as Ha.
  pose proof (NilZero.usu _ (to_uint_not_nil b)) as Hb.
  rewrite H in Ha. congruence.
Qed.

(** A text is cut at its first dash in one way only. *)
Lemma cut_at_dash (a a' b b' : string) :
  occurs "-"%char a = false -> occurs "-"%char a' = false ->
  (a ++ "-" ++ b)%string = (a' ++ "-" ++ b')%string -> a = a' /\ b = b'.
Proof.
  revert a'. induction a as [| c a IH]; intros [| c' a'] Ha Ha' E; simpl in *.
  - by injection E.
  - injection E as <- _. discriminate Ha'.
  - injection E as -> _. discriminate Ha.
  - injection E as <- E.
    apply orb_false_elim in Ha as [_ Ha], Ha' as [_ Ha'].
    destruct (IH _ Ha Ha' E) as [-> ->]. done.
Qed.

Lemma key_inj (y m y' m' : nat) : key y m = key y' m' -> y = y' /\ m = m'.
Proof.
  unfold key. intros E.
  apply cut_at_dash in E as [E1 E2]; try apply decimal_no_dash.
  split; by apply decimal_inj.
Qed.

(** *** The lookup table *)

Lemma lookup_snoc (data : list MonthlyReturn) (d : MonthlyReturn) :
  lookup (data ++ [d]) = <[key (year d) (month d) := return_pct d]> (lookup data).
Proof. unfold lookup. by rewrite fold_left_app. Qed.

Lemma last_entry_snoc (data : list MonthlyReturn) (d : MonthlyReturn) (y m : nat) :
  last_entry (data ++ [d]) y m
  = if Nat.eqb (year d) y && Nat.eqb (month d) m then Some (return_pct d)
    else last_entry data y m.
Proof.
  unfold last_entry. rewrite rev_unit. simpl.
  by destruct (Nat.eqb (year d) y && Nat.eqb (month d) m).
Qed.

Lemma lookup_last_entry (data : list MonthlyReturn) (y m : nat) :
  lookup data !! key y m = last_entry data y m.
Proof.
  induction data as [| d data IH] using rev_ind.
  - reflexivity.
  - rewrite lookup_snoc, last_entry_snoc.
    destruct (Nat.eqb_spec (year d) y) as [-> | Hy]; simpl.
    + destruct (Nat.eqb_spec (month d) m) as [-> | Hm].
      * apply lookup_insert_eq.
      * rewrite lookup_insert_ne; [exact IH |].
        intros E. apply key_inj in E as [_ E]. contradiction.
    + rewrite lookup_insert_ne; [exact IH |].
      intros E. apply key_inj in E as [E _]. contradiction.
Qed.

(** Every row of the heatmap has twelve cells, and the cell of month [m]
    holds the return of the last entry of the data for the year of the row and
    that month, or nothing when there is no such entry: entries of different
    months or years never share a key of the lookup table. *)
Theorem heatmap_cells (data : list MonthlyReturn) (y m : nat) :
  length (cells data y) = 12%nat
  /\ ((1 <= m <= 12)%nat ->
        cells data y !! (m - 1)%nat = Some (last_entry data y m)).
Proof.
  unfold cells. split; [reflexivity |]. intros Hm.
  rewrite list_lookup_fmap.
  replace (seq 1 12 !! (m - 1)%nat) with (Some m).
  - simpl. f_equal. apply lookup_last_entry.
  - symmetry. replace m with (1 + (m - 1))%nat at 2 by lia.
    apply lookup_seq_lt. lia.
Qed.

Lemma heatmap_cells_witness :
  cells sample 2024 !! 2%nat = Some (Some 3%Q)
  /\ cells sample 2024 !! 0%nat = Some None.
Proof.
  split.
  - destruct (heatmap_cells sample 2024 3) as [_ H].
    apply H. lia.
  - destruct (heatmap_cells sample 2024 1) as [_ H].
    apply H. lia.
Defined.

(** *** The years *)

Lemma after_default_asym (a b : nat) :
  after_default a b = true -> after_default b a = false.
Proof.
  unfold after_default. rewrite (String.compare_antisym (decimal a) (decimal b)).
  by destruct (String.compare (decimal b) (decimal a)).
Qed.

Lemma compare_le_trans (a b c : string) :
  String.compare a b <> Gt -> String.compare b c <> Gt -> String.compare a c <> Gt.
Proof.
  change String.compare with String_as_OT.cmp.
  destruct (String_as_OT.cmp a b) eqn:Eab; [| | done].
  - apply String_as_OT.cmp_eq in Eab as ->. tauto.
  - destruct (String_as_OT.cmp b c) eqn:Ebc; [| | done].
    + apply String_as_OT.cmp_eq in Ebc as <-. by rewrite Eab.
    + intros _ _. apply String_as_OT.cmp_lt in Eab, Ebc.
      pose proof (String_as_OT.lt_trans _ _ _ Eab Ebc) as H.
      apply String_as_OT.cmp_lt in H. by rewrite H.
Qed.

Lemma in_place_le (a b : nat) :
  Arrays.in_place after_default a b
  <-> String.compare (decimal a) (decimal b) <> Gt.
Proof.
  unfold Arrays.in_place, after_default.
  rewrite (String.compare_antisym (decimal a) (decimal b)).
  destruct (String.compare (decimal b) (decimal a)); simpl; split; congruence.
Qed.

Lemma after_default_trans (a b c : nat) :
  Arrays.in_place after_default a b -> Arrays.in_place after_default b c ->
  Arrays.in_place after_default a c.
Proof. rewrite !in_place_le. apply compare_le_trans. Qed.

(** From 1000 to 9999 the decimal text of a number is smaller than that of
    its successor. *)
Lemma decimal_step :
  forallb (fun n => match String.compare (decimal n) (decimal (S n)) with
                    | Lt => true
                    | _ => false
                    end)
          (seq (Z.to_nat 1000) (Z.to_nat 8999)) = true.
Proof. vm_compute. reflexivity. Qed.

Lemma decimal_succ (n : nat) :
  (1000 <= Z.of_nat n < 9999)%Z ->
  String.compare (decimal n) (decimal (S n)) = Lt.
Proof.
  intros Hn. pose proof decimal_step as H.
  rewrite forallb_forall in H.
  specialize (H n). 
  destruct (String.compare (decimal n) (decimal (S n))); try reflexivity;
    (assert (false = true) as F; [apply H; apply in_seq; lia | discriminate F]).
Qed.

Lemma decimal_mono (k a : nat) :
  (1000 <= Z.of_nat a)%Z -> (Z.of_nat (a + S k) <= 9999)%Z ->
  String.compare (decimal a) (decimal (a + S k)) = Lt.
Proof.
  induction k as [| k IH]; intros Ha Hb.
  - replace (a + 1)%nat with (S a) by lia. apply decimal_succ. lia.
  - change String.compare with String_as_OT.cmp.
    apply String_as_OT.cmp_lt.
    apply String_as_OT.lt_trans with (decimal (a + S k)).
    + apply String_as_OT.cmp_lt. apply IH; lia.
    + apply String_as_OT.cmp_lt.
      replace (a + S (S k))%nat with (S (a + S k)) by lia.
      apply decimal_succ. lia.
Qed.

Lemma in_place_numeric (a b : nat) :
  (1000 <= Z.of_nat a <= 9999)%Z -> (1000 <= Z.of_nat b <= 9999)%Z ->
  Arrays.in_place after_default a b -> a <> b -> (a < b)%nat.
Proof.
  intros Ha Hb Hle Hne. apply in_place_le in Hle.
  destruct (Nat.lt_ge_cases a b) as [H | H]; [exact H |].
  exfalso. apply Hle.
  rewrite String.compare_antisym.
  replace a with (b + S (a - b - 1))%nat by lia.
  rewrite decimal_mono; [reflexivity | lia | lia].
Qed.

Lemma sorted_numeric (l : list nat) :
  StronglySorted (Arrays.in_place after_default) l -> NoDup l ->
  Forall (fun y => (1000 <= Z.of_nat y <= 9999)%Z) l ->
  StronglySorted lt l.
Proof.
  induction 1 as [| a l Hs IH Ha]; intros Hnd Hr; [constructor |].
  apply NoDup_cons in Hnd as [Hnot Hnd].
  apply Forall_cons in Hr as [Hra Hr].
  constructor; [by apply IH |].
  apply List.Forall_forall. intros b Hb.
  rewrite List.Forall_forall in Ha.
  apply in_place_numeric; [done | | by apply Ha |].
  - rewrite Forall_forall in Hr. apply Hr. by apply list_elem_of_In.
  - intros ->. apply Hnot. by apply list_elem_of_In.
Qed.

(** The heatmap has one row for each year of the data and no year twice.
    The rows are in the order of the decimal texts of the years; when every
    year has four digits (1000 to 9999), that is the ascending order of the
    years. *)
Theorem heatmap_years (data : list MonthlyReturn) :
  map fst (rows data) = years data
  /\ NoDup (years data)
  /\ (forall y, y ∈ years data <-> exists d, d ∈ data /\ year d = y)
  /\ (Forall (fun d => (1000 <= Z.of_nat (year d) <= 9999)%Z) data ->
        StronglySorted lt (years data)).
Proof.
  assert (Hperm : Permutation (years data) (Arrays.unique Nat.eqb (map year data))).
  { apply ArraysFacts.sort_perm. }
  destruct (ArraysFacts.unique_spec Nat.eqb Nat.eqb_eq (map year data))
    as [Hnd Hin].
  assert (Hmem : forall y, y ∈ years data <-> exists d, d ∈ data /\ year d = y).
  { intros y. rewrite Hperm, Hin.
    rewrite list_elem_of_In, in_map_iff. split.
    - intros (d & Hd & Hy). exists d. split; [by apply list_elem_of_In | done].
    - intros (d & Hd & Hy). exists d. split; [done | by apply list_elem_of_In]. }
  split; [| split; [| split]].
  - unfold rows. rewrite map_map. simpl. apply map_id.
  - by rewrite Hperm.
  - exact Hmem.
  - intros Hrange. apply sorted_numeric.
    + apply ArraysFacts.sort_sorted.
      * apply after_default_asym.
      * apply after_default_trans.
    + by rewrite Hperm.
    + apply Forall_forall. intros y Hy.
      apply Hmem in Hy as (d & Hd & <-).
      rewrite Forall_forall in Hrange. by apply Hrange.
Qed.

Lemma heatmap_years_witness : StronglySorted lt (years sample).
Proof.
  apply (heatmap_years sample).
  repeat constructor; vm_compute; discriminate.
Defined.

Example years_sample : years sample = [2023; 2024]%nat.
Proof. vm_compute. reflexivity. Qed.

(** Outside that range the order of the texts is not the order of the
    numbers: the row of the year 1000 comes before the row of the year 999. *)
Example years_early : years early = [1000; 999]%nat.
Proof. vm_compute. reflexivity. Qed.

End HeatmapFacts.

(** ** Tab "Dividenden": tables and charts *)

Module DividendenTabFacts.
Import DividendenTab.
Local Open Scope list_scope.

Lemma after_amount_place (a b : SecurityEntry) :
  Arrays.in_place after_amount a b <-> (snd b <= snd a)%Q.
Proof. unfold Arrays.in_place, after_amount. apply FormattingFacts.gt_le. Qed.

Lemma after_year_place (a b : YearEntry) :
  Arrays.in_place after_year a b <-> (fst b <= fst a)%nat.
Proof. unfold Arrays.in_place, after_year. rewrite Nat.ltb_ge. done. Qed.

Lemma sorted_weaken {A : Type} (R S : A -> A -> Prop) (l : list A) :
  (forall a b, R a b -> S a b) -> StronglySorted R l -> StronglySorted S l.
Proof.
  intros HRS. induction 1 as [| a l Hs IH Ha]; constructor; [exact IH |].
  eapply Forall_impl; [exact Ha | apply HRS].
Qed.

Lemma sorted_by_amount (l : list SecurityEntry) :
  StronglySorted (fun a b => (snd b <= snd a)%Q) (Arrays.sort after_amount l).
Proof.
  eapply sorted_weaken;
    [| apply (ArraysFacts.sort_sorted after_amount)].
  - intros a b. apply after_amount_place.
  - intros a b. unfold after_amount.
    rewrite DividendenFacts.gt_spec, FormattingFacts.gt_le. apply Qlt_le_weak.
  - intros a b c. rewrite !after_amount_place. intros. by eapply Qle_trans.
Qed.

Lemma sorted_by_year (l : list YearEntry) :
  StronglySorted (fun a b => (fst b <= fst a)%nat) (Arrays.sort after_year l).
Proof.
  eapply sorted_weaken;
    [| apply (ArraysFacts.sort_sorted after_year)].
  - intros a b. apply after_year_place.
  - intros a b. unfold after_year. rewrite Nat.ltb_lt, Nat.ltb_ge. lia.
  - intros a b c. rewrite !after_year_place. lia.
Qed.

Lemma sorted_snoc {A : Type} (R : A -> A -> Prop) (l : list A) (x : A) :
  StronglySorted R l -> Forall (fun y => R y x) l -> StronglySorted R (l ++ [x]).
Proof.
  induction 1 as [| a l Hs IH Ha]; intros Hx; simpl.
  - repeat constructor.
  - apply Forall_cons in Hx as [Hax Hx].
    constructor; [by apply IH |].
    apply Forall_app. split; [exact Ha | by constructor].
Qed.

Lemma sorted_rev {A : Type} (R : A -> A -> Prop) (l : list A) :
  StronglySorted R l -> StronglySorted (fun a b => R b a) (rev l).
Proof.
  induction 1 as [| a l Hs IH Ha]; simpl; [constructor |].
  apply sorted_snoc; [exact IH |].
  apply Forall_forall. intros y Hy.
  rewrite Forall_forall in Ha. apply Ha.
  apply list_elem_of_In. apply list_elem_of_In in Hy. by apply in_rev.
Qed.

(** The table of the sources lists every source once, largest amount first,
    and the chart shows its first ten rows: there are ten bars or as many as
    there are sources, and no source that is left out has a larger amount than
    a source that is shown.  Without any source no chart is made. *)
Theorem tabDividenden_top_sources (by_year : list YearEntry)
  (by_security : list SecurityEntry) :
  let tab := tabDividenden by_year by_security in
  Permutation (nach_wertpapier tab) by_security
  /\ StronglySorted (fun a b => (snd b <= snd a)%Q) (nach_wertpapier tab)
  /\ quellen tab = length by_security
  /\ (chDivSec tab = None <-> by_security = [])
  /\ (forall shown, chDivSec tab = Some shown ->
        length shown = Nat.min 10 (length by_security)
        /\ shown ++ drop 10 (nach_wertpapier tab) = nach_wertpapier tab
        /\ forall x y, x ∈ shown -> y ∈ drop 10 (nach_wertpapier tab) ->
             (snd y <= snd x)%Q).
Proof.
  cbv zeta. unfold tabDividenden.
  cbn [nach_wertpapier quellen chDivSec].
  set (securities := Arrays.sort after_amount by_security).
  assert (Hlen : length securities = length by_security)
    by apply ArraysFacts.sort_length.
  split; [apply ArraysFacts.sort_perm |].
  split; [apply sorted_by_amount |].
  split; [exact Hlen |].
  rewrite Hlen. split.
  - destruct by_security; cbn [length Nat.ltb Nat.leb]; split; done.
  - intros shown Hshown.
    destruct (0 <? length by_security)%nat; [| discriminate Hshown].
    injection Hshown as <-.
    split; [rewrite length_take, Hlen; reflexivity |].
    split; [apply take_drop |].
    intros x y Hx Hy.
    apply (ArraysFacts.sorted_take_drop
             (fun a b : SecurityEntry => (snd b <= snd a)%Q) securities 10);
      [apply sorted_by_amount | exact Hx | exact Hy].
Qed.

Lemma tabDividenden_top_sources_witness :
  chDivSec (tabDividenden [] [("A", 5%Q); ("B", 9%Q)]) = Some [("B", 9%Q); ("A", 5%Q)]
  /\ length [("B", 9%Q); ("A", 5%Q)] = Nat.min 10 2.
Proof.
  split; [reflexivity |].
  destruct (tabDividenden_top_sources [] [("A", 5%Q); ("B", 9%Q)])
    as (_ & _ & _ & _ & H).
  destruct (H [("B", 9%Q); ("A", 5%Q)]) as [Hl _]; [reflexivity | exact Hl].
Defined.

(** The table of the years lists every year of the data, latest first; the
    chart shows the same entries the other way round, earliest first.
    Without any year no chart is made. *)
Theorem tabDividenden_years (by_year : list YearEntry)
  (by_security : list SecurityEntry) :
  let tab := tabDividenden by_year by_security in
  Permutation (nach_jahr tab) by_year
  /\ StronglySorted (fun a b => (fst b <= fst a)%nat) (nach_jahr tab)
  /\ (chDivYear tab = None <-> by_year = [])
  /\ (forall bars, chDivYear tab = Some bars ->
        bars = rev (nach_jahr tab)
        /\ StronglySorted (fun a b => (fst a <= fst b)%nat) bars).
Proof.
  cbv zeta. unfold tabDividenden.
  cbn [nach_jahr chDivYear].
  set (years := Arrays.sort after_year by_year).
  assert (Hlen : length years = length by_year)
    by apply ArraysFacts.sort_length.
  split; [apply ArraysFacts.sort_perm |].
  split; [apply sorted_by_year |].
  rewrite Hlen. split.
  - destruct by_year; cbn [length Nat.ltb Nat.leb]; split; done.
  - intros bars Hbars.
    destruct (0 <? length by_year)%nat; [| discriminate Hbars].
    injection Hbars as <-.
    split; [reflexivity |].
    apply (sorted_rev (fun a b => (fst b <= fst a)%nat)), sorted_by_year.
Qed.

Lemma tabDividenden_years_witness :
  chDivYear (tabDividenden [(2023%nat, 4%Q); (2024%nat, 6%Q)] [])
  = Some [(2023%nat, 4%Q); (2024%nat, 6%Q)]
  /\ nach_jahr (tabDividenden [(2023%nat, 4%Q); (2024%nat, 6%Q)] [])
     = [(2024%nat, 6%Q); (2023%nat, 4%Q)].
Proof.
  split; [reflexivity |].
  destruct (tabDividenden_years [(2023%nat, 4%Q); (2024%nat, 6%Q)] [])
    as (_ & _ & _ & H).
  destruct (H [(2023%nat, 4%Q); (2024%nat, 6%Q)]) as [Hb _]; [reflexivity |].
  change (nach_jahr (tabDividenden [(2023%nat, 4%Q); (2024%nat, 6%Q)] []))
    with (rev (rev (nach_jahr (tabDividenden [(2023%nat, 4%Q); (2024%nat, 6%Q)] [])))).
  rewrite <- Hb. reflexivity.
Defined.

End DividendenTabFacts.

(** ** The charts of the tab "Ausgaben" *)

Module FinChartsFacts.
Import PrimFloat FinCharts.
Local Open Scope list_scope.

Lemma fold_step (m : list Monat) (acc : PrimFloat.float)
  (out : list PrimFloat.float) :
  length (snd (fold_left step m (acc, out))) = (length out + length m)%nat
  /\ (forall j, (j < length out)%nat ->
        snd (fold_left step m (acc, out)) !! j = out !! j)
  /\ (forall i, (i < length m)%nat ->
        snd (fold_left step m (acc, out)) !! (length out + i)%nat
        = Some (fold_left PrimFloat.add (map saldo (take (S i) m)) acc)).
Proof.
  revert acc out. induction m as [| d m IH]; intros acc out; simpl.
  - split; [lia |]. split; [done |]. intros i Hi. lia.
  - unfold step at 2. simpl.
    destruct (IH (PrimFloat.add acc (saldo d))
                 (out ++ [PrimFloat.add acc (saldo d)]))
      as (Hlen & Hold & Hnew).
    rewrite length_app in Hlen, Hold, Hnew. simpl in Hlen, Hold, Hnew.
    split; [lia |]. split.
    + intros j Hj. rewrite Hold by lia. by apply lookup_app_l.
    + intros [| i] Hi.
      * rewrite Nat.add_0_r, Hold by lia.
        rewrite lookup_app_r by lia. by rewrite Nat.sub_diag.
      * rewrite <- (Hnew i) by lia. f_equal. lia.
Qed.

(** The line "Kumulierter Saldo" has one point per month, and the point of a
    month is what adding the balances of all months up to and including it
    gives, added in their order from 0 on in the arithmetic of doubles; each
    point after the first is the point before it plus the balance of its
    month. *)
Theorem cumulative_running_total (m : list Monat) :
  length (cumulative m) = length m
  /\ (forall i, (i < length m)%nat ->
        cumulative m !! i = Some (running (map saldo (take (S i) m))))
  /\ (forall i c d, cumulative m !! i = Some c -> m !! S i = Some d ->
        cumulative m !! S i = Some (PrimFloat.add c (saldo d))).
Proof.
  unfold cumulative, running.
  destruct (fold_step m 0%float []) as (Hlen & _ & Hnew). simpl in Hlen, Hnew.
  split; [exact Hlen |]. split; [exact Hnew |].
  intros i c d Hc Hd.
  assert (Hi : (S i < length m)%nat) by (by eapply lookup_lt_Some).
  rewrite Hnew in Hc by lia. injection Hc as <-.
  rewrite Hnew by exact Hi.
  rewrite (take_S_r m (S i) d Hd), map_app, fold_left_app. reflexivity.
Qed.

Lemma cumulative_running_total_witness :
  cumulative tenths !! 1%nat = Some (running (map saldo (take 2 tenths))).
Proof.
  destruct (cumulative_running_total tenths) as (_ & H & _).
  apply H. unfold tenths. simpl. lia.
Defined.

(** 0.1 and 0.2 add up to 0.30000000000000004, and adding 1 to 1e16 leaves
    1e16. *)
Example cumulative_tenths : cumulative tenths = tenths_running.
Proof. vm_compute. reflexivity. Qed.

Example cumulative_large : cumulative large = large_running.
Proof. vm_compute. reflexivity. Qed.

End FinChartsFacts.

(** ** The sidebar *)

Module SidebarFacts.
Import Sidebar.

(** After a toggle, loading the page anew shows the sidebar collapsed when
    the toggle collapsed it; when the toggle opened it, the reloaded page
    shows what its markup says.  With a markup that is not collapsed the state
    of the sidebar therefore survives a reload.  The class of the body follows
    the class of the sidebar through toggles and reloads once the two
    agree. *)
Theorem sidebar_survives_reload (p : Page) (markup_collapsed markup_body : bool) :
  collapsed (reload markup_collapsed markup_body (toggleSidebar p))
  = collapsed (toggleSidebar p) || markup_collapsed
  /\ (collapsed p = body_collapsed p ->
        collapsed (toggleSidebar p) = body_collapsed (toggleSidebar p))
  /\ (markup_collapsed = markup_body ->
        collapsed (reload markup_collapsed markup_body p)
        = body_collapsed (reload markup_collapsed markup_body p)).
Proof.
  destruct p as [c b s]. unfold reload, restoreSidebar, toggleSidebar. simpl.
  split; [| split].
  - destruct c; simpl; [by destruct markup_collapsed | reflexivity].
  - by intros ->.
  - intros ->. destruct s as [s |]; [| done].
    by destruct (String.eqb s "true").
Qed.

Lemma sidebar_survives_reload_witness :
  collapsed (toggleSidebar {| collapsed := false; body_collapsed := false; stored := None |})
  = body_collapsed (toggleSidebar {| collapsed := false; body_collapsed := false; stored := None |}).
Proof.
  apply (sidebar_survives_reload
           {| collapsed := false; body_collapsed := false; stored := None |} false false).
  reflexivity.
Defined.

End SidebarFacts.

(** ** The table of the tab "Ausgaben" *)

Module FinanceTableFacts.
Import Finance FinanceTable.

Lemma same_field_eq (a b : SortField) : same_field a b = true <-> a = b.
Proof. destruct a, b; simpl; split; congruence. Qed.

(** A click on the header of a column makes it the sort column; the direction
    is then one of "asc" and "desc".  A click on a new column sorts it
    ascending, the date column descending; a second click on the same column
    reverses the direction, and a third one brings back the state of the
    first. *)
Theorem setFinSort_cycle (f : SortField) (srt : Sort.t) :
  let once := setFinSort f srt in
  let twice := setFinSort f once in
  Sort.field once = f
  /\ (Sort.dir once = "asc" \/ Sort.dir once = "desc")
  /\ (Sort.field srt <> f ->
        Sort.dir once = if same_field f F_datum then "desc" else "asc")
  /\ Sort.field twice = f
  /\ (Sort.dir once = "desc" -> Sort.dir twice = "asc")
  /\ (Sort.dir once = "asc" -> Sort.dir twice = "desc")
  /\ setFinSort f twice = once.
Proof.
  cbv zeta. destruct srt as [fld dir]. unfold setFinSort. simpl.
  destruct (same_field fld f) eqn:E.
  - apply same_field_eq in E as ->. simpl.
    assert (Hf : same_field f f = true) by (by apply same_field_eq).
    rewrite Hf. simpl. rewrite Hf.
    destruct (String.eqb dir "desc") eqn:Ed; simpl;
      repeat split; try tauto; try discriminate; try reflexivity.
  - simpl.
    assert (Hf : same_field f f = true) by (by apply same_field_eq).
    rewrite Hf. simpl. rewrite Hf.
    destruct (same_field f F_datum); simpl;
      repeat split; try tauto; try discriminate; try reflexivity.
Qed.

Lemma setFinSort_cycle_witness :
  Sort.dir (setFinSort F_betrag initial) = "asc"
  /\ Sort.dir (setFinSort F_betrag (setFinSort F_betrag initial)) = "desc".
Proof.
  destruct (setFinSort_cycle F_betrag initial) as (_ & _ & H1 & _ & _ & H2 & _).
  split.
  - apply H1. discriminate.
  - apply H2. reflexivity.
Defined.

End FinanceTableFacts.

(** ** Tab "Transaktionen": the buttons *)

Module TransaktionenButtonsFacts.
Import Transaktionen TransaktionenButtons.
Local Open Scope list_scope.

Lemma types_spec (t : string) :
  existsb (String.eqb t) types = true <-> In t types.
Proof.
  rewrite existsb_exists. split.
  - intros (x & Hx & E). apply String.eqb_eq in E. by subst.
  - intros H. exists t. split; [exact H | apply String.eqb_refl].
Qed.

Lemma totalPages_setTxPage (st : State) (all : list Tx) (p : nat) :
  totalPages (setTxPage p st) all = totalPages st all.
Proof. reflexivity. Qed.

Lemma click_in_range (all : list Tx) (st : State) (c : Click) :
  in_range all st -> in_range all (click all st c).
Proof.
  intros H. destruct c as [t | |]; unfold click.
  - destruct (existsb (String.eqb t) types); [by left | exact H].
  - unfold tabTransaktionen. cbn [pagination].
    destruct (1 <? totalPages st all)%Z; [| exact H].
    cbn [previous]. destruct (0 <? txPage st)%nat eqn:E; [| exact H].
    apply Nat.ltb_lt in E.
    destruct H as [H | H]; [lia |].
    right. rewrite totalPages_setTxPage. cbn [setTxPage txPage]. lia.
  - unfold tabTransaktionen. cbn [pagination].
    destruct (1 <? totalPages st all)%Z; [| exact H].
    cbn [next]. destruct (Z.of_nat (txPage st) <? totalPages st all - 1)%Z eqn:E;
      [| exact H].
    apply Z.ltb_lt in E.
    right. rewrite totalPages_setTxPage. cbn [setTxPage txPage]. lia.
Qed.

Lemma click_filter (all : list Tx) (st : State) (c : Click) :
  In (txFilter st) types -> In (txFilter (click all st c)) types.
Proof.
  intros H. destruct c as [t | |]; unfold click.
  - destruct (existsb (String.eqb t) types) eqn:E; [| exact H].
    by apply types_spec in E.
  - destruct (pagination (tabTransaktionen st all)) as [bar |]; [| exact H].
    by destruct (previous bar).
  - destruct (pagination (tabTransaktionen st all)) as [bar |]; [| exact H].
    by destruct (next bar).
Qed.

Lemma in_range_rows (all : list Tx) (st : State) :
  in_range all st -> filtered st all <> [] ->
  rows (tabTransaktionen st all) <> [].
Proof.
  intros H Hne. unfold tabTransaktionen. cbn [rows]. unfold paged, slice.
  assert (Hlen : (txPage st * TX_PER_PAGE < length (filtered st all))%nat).
  { destruct H as [-> | H].
    - destruct (filtered st all); [done | simpl; lia].
    - pose proof (TransaktionenFacts.totalPages_ceiling st all) as [Hc _].
      unfold TX_PER_PAGE. lia. }
  intros E. apply (f_equal (@length Tx)) in E.
  rewrite length_take, length_drop in E. simpl in E.
  unfold TX_PER_PAGE in *. lia.
Qed.



(** On the sample ledger the "next" button leads to the second page and no
    further. *)
Example buttons_sample :
  txPage (fold_left (click sample_ledger) [ClickNext; ClickNext; ClickNext] opened)
  = 1%nat.
Proof. vm_compute. reflexivity. Qed.

End TransaktionenButtonsFacts.

(** ** The table of the tab "Ausgaben": filters and sort clicks together *)

Module FinanceClicksFacts.
Import Finance FinanceTable FinanceClicks.
Local Open Scope list_scope.

Lemma ascii_compare_refl (c : ascii) : Ascii.compare c c = Eq.
Proof.
  pose proof (Ascii.compare_antisym c c) as H.
  destruct (Ascii.compare c c); simpl in H; congruence.
Qed.

(** A text that goes on after [day] comes after [day]. *)
Lemma compare_longer (day rest : string) :
  rest <> "" -> String.compare (day ++ rest) day = Gt.
Proof.
  intros Hrest. induction day as [| c day IH]; simpl.
  - by destruct rest.
  - by rewrite ascii_compare_refl.
Qed.

Lemma compare_shorter (day rest : string) :
  String.compare day (day ++ rest) <> Gt.
Proof.
  induction day as [| c day IH]; simpl.
  - by destruct rest.
  - by rewrite ascii_compare_refl.
Qed.

Section Locale.

Variable toLowerCase : string -> string.
Variable localeCompare : string -> string -> Z.
Variable StringToNumber : string -> Number.

Tactic Notation "next_filter" constr(H) ident(r) ident(g) ident(C) ident(X) :=
  match goal with
  | |- context [filter_if ?c ?p ?r0 ?g0] =>
      pose proof (FinanceFacts.filter_if_spec c p r0 g0 _ H) as C;
      destruct (filter_if c p r0 g0) as [r g];
      destruct C as [C X]
  end.

(** What a call of [getFilteredFinTx] returns and leaves behind. *)
Lemma getFilteredFinTx_run (g : Globals) (l : list FinTx) :
  heap g !! financeTransactions g = Some l ->
  exists (r : loc) (g' : Globals),
    getFilteredFinTx toLowerCase localeCompare StringToNumber g = (r, g')
    /\ heap g' !! r
       = Some (sorted_by (compareFn localeCompare (Sort.field (finSort g))
                            (direction (finSort g)))
                 (List.filter (passes toLowerCase StringToNumber (finFilter g)) l))
    /\ heap g' !! financeTransactions g' = Some l
    /\ finFilter g' = finFilter g
    /\ finSort g' = finSort g.
Proof.
  intros Hl. unfold getFilteredFinTx, mbind, M_bind, gets.
  next_filter Hl r1 g1 C1 X1. next_filter C1 r2 g2 C2 X2.
  next_filter C2 r3 g3 C3 X3. next_filter C3 r4 g4 C4 X4.
  next_filter C4 r5 g5 C5 X5. next_filter C5 r6 g6 C6 X6.
  rewrite FinanceFacts.filters_compose in C6.
  assert (X : extends g g6).
  { repeat (eapply FinanceFacts.extends_trans; [eassumption |]).
    apply FinanceFacts.extends_refl. }
  pose proof (FinanceFacts.Array_spread_spec r6 g6 _ C6) as Hs.
  destruct (Array_spread r6 g6) as [copy gc].
  destruct Hs as (Hfresh & Hcopy & Hext).
  destruct (FinanceFacts.extends_trans _ _ _ X Hext) as (E1 & E2 & E3 & E4).
  destruct X as (_ & _ & F3 & K).
  assert (Hdom : financeTransactions g ∈ dom (heap g)).
  { apply elem_of_dom. by rewrite Hl. }
  assert (Hne : copy <> financeTransactions g).
  { intros E. apply Hfresh, elem_of_dom. rewrite E, K by done.
    by apply elem_of_dom. }
  unfold Array_sort. rewrite Hcopy. simpl default.
  eexists _, _. split; [reflexivity |].
  rewrite F3. simpl.
  split; [apply lookup_insert_eq |].
  rewrite E1. split; [| by split].
  rewrite lookup_insert_ne by done. by rewrite E4.
Qed.

(** The upper bound of the date filter compares texts: a row whose [datum]
    goes on after the day, as with a time of day, lies above the bound of that
    very day and is left out of the table, whatever the other filters are;
    the lower bound of the same day lets it pass, so that with no other filter
    set the row is listed. *)
Theorem endDatum_leaves_out_times (g : Globals) (l : list FinTx) (t : FinTx)
  (day rest : string) :
  heap g !! financeTransactions g = Some l ->
  day <> "" -> rest <> "" ->
  datum t = Some (day ++ rest)%string ->
  exists (r : loc) (g' : Globals) (res : list FinTx),
    getFilteredFinTx toLowerCase localeCompare StringToNumber g = (r, g')
    /\ heap g' !! r = Some res
    /\ (Filter.endDatum (finFilter g) = day -> ~ In t res)
    /\ (finFilter g
        = {| Filter.search := ""; Filter.kategorie := ""; Filter.art := "";
             Filter.konto := ""; Filter.startDatum := day;
             Filter.endDatum := "" |} ->
        In t l -> In t res).
Proof.
  intros Hl Hday Hrest Ht.
  destruct (getFilteredFinTx_run g l Hl) as (r & g' & Hrun & Hres & _).
  eexists r, g', _. split; [exact Hrun |]. split; [exact Hres |].
  assert (Hperm := FinanceFacts.sorted_by_perm
            (compareFn localeCompare (Sort.field (finSort g)) (direction (finSort g)))
            (List.filter (passes toLowerCase StringToNumber (finFilter g)) l)).
  split.
  - intros Hend Hin.
    apply (Permutation_in _ Hperm), filter_In in Hin as [_ Hp].
    unfold passes in Hp. rewrite !andb_true_iff in Hp.
    destruct Hp as (_ & Hp). rewrite Hend, Ht in Hp.
    unfold truthy, le_str, String.leb in Hp.
    rewrite (compare_longer day rest Hrest) in Hp.
    destruct (String.eqb_spec day ""); [done | discriminate Hp].
  - intros Hflt Hin.
    apply (Permutation_in _ (Permutation_sym Hperm)), filter_In.
    split; [exact Hin |].
    rewrite Hflt. unfold passes, truthy. cbn [Filter.search Filter.kategorie
      Filter.art Filter.konto Filter.startDatum Filter.endDatum].
    rewrite String.eqb_refl. cbn [negb orb andb].
    rewrite Ht. unfold ge_str, String.leb.
    pose proof (compare_shorter day rest) as Hc.
    destruct (String.compare day (day ++ rest)); try done;
      by rewrite orb_true_r.
Qed.

(** A click on the header of a column changes the order of the table and
    nothing else: the rows listed after the click are those listed before it,
    each as often as before, so the count of the heading and the number of
    pages stay what they were; the array of all rows is the same. *)
Theorem setFinSort_keeps_rows (f : SortField) (g : Globals) (l : list FinTx) :
  heap g !! financeTransactions g = Some l ->
  exists (r1 : loc) (g1 : Globals) (before : list FinTx)
         (r2 : loc) (g2 : Globals) (after : list FinTx),
    getFilteredFinTx toLowerCase localeCompare StringToNumber g = (r1, g1)
    /\ heap g1 !! r1 = Some before
    /\ getFilteredFinTx toLowerCase localeCompare StringToNumber (sortBy f g1) = (r2, g2)
    /\ heap g2 !! r2 = Some after
    /\ Permutation before after
    /\ length before = length after
    /\ heap g2 !! financeTransactions g2 = Some l.
Proof.
  intros Hl.
  destruct (getFilteredFinTx_run g l Hl) as (r1 & g1 & Hrun1 & Hres1 & Hl1 & Hf1 & _).
  destruct (getFilteredFinTx_run (sortBy f g1) l Hl1)
    as (r2 & g2 & Hrun2 & Hres2 & Hl2 & _).
  cbn [sortBy finFilter finSort] in Hres2. rewrite Hf1 in Hres2.
  eexists r1, g1, _, r2, g2, _.
  split; [exact Hrun1 |]. split; [exact Hres1 |].
  split; [exact Hrun2 |]. split; [exact Hres2 |].
  assert (P : Permutation
    (sorted_by (compareFn localeCompare (Sort.field (finSort g)) (direction (finSort g)))
       (List.filter (passes toLowerCase StringToNumber (finFilter g)) l))
    (sorted_by (compareFn localeCompare (Sort.field (setFinSort f (finSort g1)))
                  (direction (setFinSort f (finSort g1))))
       (List.filter (passes toLowerCase StringToNumber (finFilter g)) l))).
  { etransitivity; [apply FinanceFacts.sorted_by_perm |].
    symmetry. apply FinanceFacts.sorted_by_perm. }
  split; [exact P |]. split; [by apply Permutation_length | exact Hl2].
Qed.

End Locale.

Lemma endDatum_leaves_out_times_witness :
  exists (r : loc) (g' : Globals) (res : list FinTx),
    getFilteredFinTx lower ordinalCompare plainNumber (globals_of [miete; abends] until_january)
    = (r, g')
    /\ heap g' !! r = Some res
    /\ ~ In abends res.
Proof.
  destruct (endDatum_leaves_out_times lower ordinalCompare plainNumber
              (globals_of [miete; abends] until_january) [miete; abends] abends
              "2024-01-31" "T20:15:00")
    as (r & g' & res & H1 & H2 & H3 & _);
    [reflexivity | discriminate | discriminate | reflexivity |].
  exists r, g', res. split; [exact H1 |]. split; [exact H2 |].
  apply H3. reflexivity.
Defined.

Lemma setFinSort_keeps_rows_witness :
  exists (r1 : loc) (g1 : Globals) (before : list FinTx)
         (r2 : loc) (g2 : Globals) (after : list FinTx),
    getFilteredFinTx lower ordinalCompare plainNumber sample_globals = (r1, g1)
    /\ heap g1 !! r1 = Some before
    /\ getFilteredFinTx lower ordinalCompare plainNumber (sortBy F_datum g1) = (r2, g2)
    /\ heap g2 !! r2 = Some after
    /\ Permutation before after
    /\ length before = length after
    /\ heap g2 !! financeTransactions g2 = Some sample_rows.
Proof.
  apply (setFinSort_keeps_rows lower ordinalCompare plainNumber F_datum sample_globals sample_rows).
  reflexivity.
Defined.

(** The row of the evening of 31 January is not listed up to 31 January. *)
Example endDatum_sample :
  let (r, g') := getFilteredFinTx lower ordinalCompare plainNumber
                   (globals_of [miete; abends] until_january) in
  heap g' !! r = Some [miete].
Proof. vm_compute. reflexivity. Qed.

End FinanceClicksFacts.

(** ** The table of the tab "Ausgaben": pages *)

Module FinanceViewFacts.
Import Finance FinanceTable FinanceClicks FinanceView.
Local Open Scope list_scope.

(** The ceiling of the quotient: the one integer [T] with
    [30 (T - 1) < n <= 30 T]. *)
Lemma pages_ceiling (n : nat) :
  let T := Qceiling (inject_Z (Z.of_nat n) / inject_Z (Z.of_nat FIN_PER_PAGE)) in
  (30 * (T - 1) < Z.of_nat n <= 30 * T)%Z.
Proof.
  cbv zeta.
  set (x := (inject_Z (Z.of_nat n) / inject_Z (Z.of_nat FIN_PER_PAGE))%Q).
  assert (Hx : (x * 30 == inject_Z (Z.of_nat n))%Q).
  { unfold x. change (inject_Z (Z.of_nat FIN_PER_PAGE)) with 30%Q. field. }
  pose proof (Qle_ceiling x) as Hle.
  pose proof (Qceiling_lt x) as Hlt.
  set (T := Qceiling x) in *.
  assert (H1 : (inject_Z (Z.of_nat n) <= inject_Z T * 30)%Q).
  { rewrite <- Hx. apply Qmult_le_compat_r; [exact Hle | discriminate]. }
  assert (H2 : (inject_Z (T - 1) * 30 < inject_Z (Z.of_nat n))%Q).
  { rewrite <- Hx. apply Qmult_lt_compat_r; [reflexivity | exact Hlt]. }
  change 30%Q with (inject_Z 30) in H1, H2.
  rewrite <- inject_Z_mult in H1, H2.
  rewrite <- Zle_Qle in H1. rewrite <- Zlt_Qlt in H2. lia.
Qed.

(** The page is the first one or lies below the page count. *)
Lemma in_range_paged (res : list FinTx) (p : nat) :
  p = 0%nat \/ (Z.of_nat p < totalPages (length res))%Z ->
  res <> [] -> paged (table_of res p) <> [].
Proof.
  intros H Hne. unfold table_of. cbn [paged]. unfold Transaktionen.slice.
  assert (Hlen : (p * FIN_PER_PAGE < length res)%nat).
  { assert (H0 : (0 < length res)%nat) by (destruct res; [done | simpl; lia]).
    destruct H as [-> | H]; [exact H0 |].
    pose proof (pages_ceiling (length res)) as Hc. cbv zeta in Hc.
    unfold totalPages in H.
    set (T := Qceiling _) in *. unfold FIN_PER_PAGE. lia. }
  intros E. apply (f_equal (@length FinTx)) in E.
  rewrite length_take, length_drop in E. simpl in E.
  unfold FIN_PER_PAGE in *. lia.
Qed.

Section Locale.

Variable toLowerCase : string -> string.
Variable localeCompare : string -> string -> Z.
Variable StringToNumber : string -> Number.

(** What [show] leaves behind: the array of all rows and the filters are as
    before, and the table is that of the rows that pass, sorted. *)
Lemma show_spec (g : Globals) (p : nat) (l : list FinTx) :
  heap g !! financeTransactions g = Some l ->
  heap (globals (show toLowerCase localeCompare StringToNumber g p))
    !! financeTransactions (globals (show toLowerCase localeCompare StringToNumber g p)) = Some l
  /\ finFilter (globals (show toLowerCase localeCompare StringToNumber g p)) = finFilter g
  /\ finPage (show toLowerCase localeCompare StringToNumber g p) = p
  /\ exists res,
       Permutation res (List.filter (passes toLowerCase StringToNumber (finFilter g)) l)
       /\ table (show toLowerCase localeCompare StringToNumber g p) = table_of res p.
Proof.
  intros Hl.
  destruct (FinanceClicksFacts.getFilteredFinTx_run toLowerCase localeCompare StringToNumber g l Hl)
    as (r & g' & Hrun & Hres & Hl' & Hf & _).
  unfold show, renderFinTable, mbind, M_bind. rewrite Hrun.
  unfold contents, mret, M_ret. rewrite Hres. cbn [default globals finPage table].
  split; [exact Hl' |]. split; [exact Hf |]. split; [reflexivity |].
  eexists. split; [apply FinanceFacts.sorted_by_perm | reflexivity].
Qed.

Lemma show_in_order (g : Globals) (p : nat) (l : list FinTx) :
  heap g !! financeTransactions g = Some l ->
  (p = 0%nat
   \/ (Z.of_nat p
       < totalPages (length (List.filter (passes toLowerCase StringToNumber (finFilter g)) l)))%Z) ->
  in_order_for toLowerCase StringToNumber l (show toLowerCase localeCompare StringToNumber g p).
Proof.
  intros Hl Hp.
  destruct (show_spec g p l Hl) as (H1 & H2 & H3 & res & Hperm & Ht).
  split; [exact H1 |]. exists res. rewrite H2, H3.
  split; [exact Hperm |]. split; [exact Ht |].
  by rewrite (Permutation_length Hperm).
Qed.

Lemma handle_in_order (l : list FinTx) (v : View) (e : Event) :
  in_order_for toLowerCase StringToNumber l v -> in_order_for toLowerCase StringToNumber l (handle toLowerCase localeCompare StringToNumber v e).
Proof.
  intros Hv. pose proof Hv as (Hl & res & Hperm & Ht & Hp).
  pose proof (Permutation_length Hperm) as Hlen.
  destruct e as [inputs | f | |]; unfold handle.
  - apply show_in_order; [exact Hl | by left].
  - apply show_in_order; [exact Hl |].
    cbn [sortBy finFilter]. by rewrite <- Hlen.
  - rewrite Ht. unfold table_of. cbn [bar].
    destruct (1 <? totalPages (length res))%Z; [| exact Hv].
    cbn [Transaktionen.previous].
    destruct (0 <? finPage v)%nat eqn:E; [| exact Hv].
    apply Nat.ltb_lt in E.
    apply show_in_order; [exact Hl |]. rewrite <- Hlen. right.
    destruct Hp as [Hp | Hp]; lia.
  - rewrite Ht. unfold table_of. cbn [bar].
    destruct (1 <? totalPages (length res))%Z; [| exact Hv].
    cbn [Transaktionen.next].
    destruct (Z.of_nat (finPage v) <? totalPages (length res) - 1)%Z eqn:E;
      [| exact Hv].
    apply Z.ltb_lt in E.
    apply show_in_order; [exact Hl |]. rewrite <- Hlen. right. lia.
Qed.

(** From the moment the tab is opened, whatever the user does in the table
    (changing the filters, clicking headers, paging), the count above the
    table is the number of rows of the data that pass the filters, the page is
    the first one or lies below the page count, and the table shows at least
    one row unless no row passes, in which case it shows the notice; the array
    of all rows stays the one that was loaded.  In particular a click on a
    header, which keeps the page, never leads behind the last page. *)
Theorem finance_table_stays_on_a_page (g : Globals) (l : list FinTx)
  (events : list Event) :
  heap g !! financeTransactions g = Some l ->
  let v := fold_left (handle toLowerCase localeCompare StringToNumber) events
                     (tabAusgaben toLowerCase localeCompare StringToNumber g) in
  heap (globals v) !! financeTransactions (globals v) = Some l
  /\ count (table v)
     = length (List.filter (passes toLowerCase StringToNumber (finFilter (globals v))) l)
  /\ (finPage v = 0%nat \/ (Z.of_nat (finPage v) < totalPages (count (table v)))%Z)
  /\ (count (table v) <> 0%nat -> paged (table v) <> [])
  /\ (notice (table v) = true <-> count (table v) = 0%nat).
Proof.
  intros Hl. cbv zeta.
  assert (H0 : in_order_for toLowerCase StringToNumber l (tabAusgaben toLowerCase localeCompare StringToNumber g)).
  { unfold tabAusgaben. apply show_in_order; [exact Hl | by left]. }
  revert H0. generalize (tabAusgaben toLowerCase localeCompare StringToNumber g) as v.
  induction events as [| e events IH]; intros v Hv; simpl.
  - destruct Hv as (Hv & res & Hperm & Ht & Hp).
    split; [exact Hv |]. rewrite Ht.
    assert (Hc : count (table_of res (finPage v)) = length res) by reflexivity.
    rewrite Hc.
    split; [by apply Permutation_length |]. split; [exact Hp |].
    assert (Hrows : length res <> 0%nat -> paged (table_of res (finPage v)) <> []).
    { intros Hn. apply in_range_paged; [exact Hp |]. by destruct res. }
    split; [exact Hrows |].
    unfold table_of at 1. cbn [notice]. rewrite Nat.eqb_eq. split.
    + intros E. destruct (Nat.eq_dec (length res) 0) as [E0 | N0]; [exact E0 |].
      exfalso. apply (Hrows N0).
      by apply length_zero_iff_nil.
    + intros E. apply length_zero_iff_nil in E. subst res.
      unfold Transaktionen.slice. by rewrite drop_nil, take_nil.
  - apply IH. by apply handle_in_order.
Qed.

End Locale.

Lemma finance_table_stays_on_a_page_witness :
  count (table (fold_left (handle lower ordinalCompare plainNumber)
                  [ChangeFilter debits; ClickHeader F_betrag; ClickNext]
                  (tabAusgaben lower ordinalCompare plainNumber sample_globals)))
  = length (List.filter
              (passes lower plainNumber
                 (finFilter (globals
                    (fold_left (handle lower ordinalCompare plainNumber)
                       [ChangeFilter debits; ClickHeader F_betrag; ClickNext]
                       (tabAusgaben lower ordinalCompare plainNumber sample_globals)))))
              sample_rows).
Proof.
  destruct (finance_table_stays_on_a_page lower ordinalCompare plainNumber sample_globals
              sample_rows [ChangeFilter debits; ClickHeader F_betrag; ClickNext])
    as (_ & H & _); [reflexivity | exact H].
Defined.

(** The debits of the sample rows, by amount. *)
Example finance_table_sample :
  paged (table (fold_left (handle lower ordinalCompare plainNumber)
                  [ChangeFilter debits; ClickHeader F_betrag]
                  (tabAusgaben lower ordinalCompare plainNumber sample_globals)))
  = [einkauf; miete].
Proof. vm_compute. reflexivity. Qed.

End FinanceViewFacts.
